(** * Saver: the binary save format of the world map

    A shallow embedding of [src/model/Saver.py] ([Saver.save_map] and
    [Saver.load_map]) and the properties of the format that the
    specification states about it.

    The file written by [save_map] is modelled as the sequence of records
    handed to [f.write]; its contents are the concatenation of their bytes.
    The file read by [load_map] is modelled as the bytes not yet consumed,
    together with a journal of the reads performed ([f.read] calls, tagged
    with the source line that issues them).  Python exceptions are an
    explicit error result; a raised exception leaves the file in the state
    it had when the exception was raised. *)

From Stdlib Require Import String ZArith Lia Bool List.
From coqutil Require Import Byte Word.LittleEndianList.
Import ListNotations.
Local Open Scope Z_scope.
#[local] Set Warnings "-register-all".

(** ** Exceptions and results *)

Inductive exn : Type :=
| ValueError (msg : string)
| StructError              (* struct.error *)
| TypeError
| IndexError.

Inductive result (A : Type) : Type :=
| Ok (a : A)
| Raise (e : exn).
Arguments Ok {A} a.
Arguments Raise {A} e.

Definition is_ok {A} (r : result A) : bool :=
  match r with Ok _ => true | Raise _ => false end.

(** ** A state monad with exceptions

    [M S A] is a computation over a state [S] (an open file) that returns
    an [A] or raises; the state at the point of the exception is kept. *)

Definition M (S A : Type) : Type := S -> result A * S.

Definition ret {S A} (a : A) : M S A := fun s => (Ok a, s).

Definition raise {S A} (e : exn) : M S A := fun s => (Raise e, s).

Definition lift {S A} (r : result A) : M S A := fun s => (r, s).

Definition bind {S A B} (m : M S A) (k : A -> M S B) : M S B :=
  fun s =>
    match m s with
    | (Ok a, s') => k a s'
    | (Raise e, s') => (Raise e, s')
    end.

Notation "x <- m ;; k" := (bind m (fun x => k))
  (at level 61, m at next level, right associativity).
Notation "' pat <- m ;; k" := (bind m (fun x => match x with pat => k end))
  (at level 61, pat pattern, m at next level, right associativity).
Notation "m ;;; k" := (bind m (fun _ => k))
  (at level 61, right associativity).

(** [for x in xs: body], threading the variables the body assigns. *)
Fixpoint for_in {S A T} (xs : list A) (body : A -> T -> M S T) (acc : T)
  : M S T :=
  match xs with
  | [] => ret acc
  | x :: xs' => acc' <- body x acc ;; for_in xs' body acc'
  end.

(** [for x in xs: body] when the body assigns nothing the loop keeps. *)
Definition for_each {S A} (xs : list A) (body : A -> M S unit) : M S unit :=
  for_in xs (fun x _ => body x) tt.

(** [range(n)]: empty when [n <= 0]. *)
Definition range (n : Z) : list nat := seq 0 (Z.to_nat n).

Definition len {A} (l : list A) : Z := Z.of_nat (length l).

(** [l1 != l2] on lists of integers. *)
Definition list_ne (l1 l2 : list Z) : bool :=
  if list_eq_dec Z.eq_dec l1 l2 then false else true.

(** ** Python objects met in the noise chunks

    A float is written by [struct.pack('f', _)] as an IEEE-754 binary32
    value; it is represented here by the 32-bit pattern of that value, so
    that rounding of wider floats is outside the model. *)

Inductive pyobj : Type :=
| PyFloat (bits : Z)
| PyList (items : list pyobj).

(** [len(o)] *)
Definition py_len (o : pyobj) : result Z :=
  match o with
  | PyList items => Ok (len items)
  | PyFloat _ => Raise TypeError
  end.

(** [o[0]] *)
Definition py_getitem0 (o : pyobj) : result pyobj :=
  match o with
  | PyList (first :: _) => Ok first
  | PyList [] => Raise IndexError
  | PyFloat _ => Raise TypeError
  end.

(** [iter(o)], as the [for] statement calls it. *)
Definition py_iter (o : pyobj) : result (list pyobj) :=
  match o with
  | PyList items => Ok items
  | PyFloat _ => Raise TypeError
  end.

(** [l[i] = v] on a list: IndexError out of range. *)
Fixpoint list_setitem {A} (l : list A) (i : nat) (v : A) : result (list A) :=
  match l, i with
  | [], _ => Raise IndexError
  | _ :: t, O => Ok (v :: t)
  | h :: t, S i' =>
      match list_setitem t i' v with
      | Ok t' => Ok (h :: t')
      | Raise e => Raise e
      end
  end.

(** [l[i]] on a list. *)
Definition list_getitem {A} (l : list A) (i : nat) : result A :=
  match nth_error l i with
  | Some a => Ok a
  | None => Raise IndexError
  end.

(** [chunk[i][j] = v] *)
Definition setitem2 {A} (chunk : list (list A)) (i j : nat) (v : A)
  : result (list (list A)) :=
  match list_getitem chunk i with
  | Ok row =>
      match list_setitem row j v with
      | Ok row' => list_setitem chunk i row'
      | Raise e => Raise e
      end
  | Raise e => Raise e
  end.

(** ** Insertion-ordered dictionaries

    A Python [dict] iterates in insertion order, and [save_map] writes the
    entries in that order: a dictionary is the list of its items.
    [d[k] = v] replaces the value of an existing key in place and appends
    a new key at the end. *)

Definition dict (K V : Type) : Type := list (K * V).

Fixpoint dict_set {K V} (eqb : K -> K -> bool) (d : dict K V) (k : K) (v : V)
  : dict K V :=
  match d with
  | [] => [(k, v)]
  | (k', v') :: d' =>
      if eqb k' k then (k', v) :: d' else (k', v') :: dict_set eqb d' k v
  end.

Definition items {K V} (d : dict K V) : list (K * V) := d.
Definition keys {K V} (d : dict K V) : list K := List.map fst d.

(** ** The data model: model.Geometry, model.Structures, model.Perlin,
       model.Map

    These modules are not among the sources at hand; their classes are
    the records below, with the attributes [Saver] reads and the
    constructor arguments it passes. *)

Module Point.
(** Modelled from the spec: [Point] of model.Geometry, an ordered pair of
    integers [x], [y], compared by value. *)
Record t : Type := new { x : Z; y : Z }.
Definition eqb (p q : t) : bool := (x p =? x q) && (y p =? y q).
End Point.

Module OreType.
(** Modelled from the spec: [OreType] of model.Structures, an enumerated
    tag; a member is identified by its [value]. *)
Record t : Type := member { value : Z }.
Definition eqb (a b : t) : bool := value a =? value b.
(** [OreType(v)]: the member whose value is [v], ValueError when the
    enumeration, whose members' values are [values], has none. *)
Definition call (values : list Z) (v : Z) : result t :=
  if existsb (Z.eqb v) values then Ok (member v)
  else Raise (ValueError "not a valid OreType").
End OreType.

Module Structure.
(** Modelled from the spec: [Structure] of model.Structures, a type
    identifier, an anchor and an ordered footprint. *)
Record t : Type := new
  { structure_type : Z; position : Point.t; points : list Point.t }.
End Structure.

Module Building.
(** Modelled from the spec: [Building] of model.Structures, an anchor
    and an ordered footprint. *)
Record t : Type := new { position : Point.t; points : list Point.t }.
End Building.

(** The key of a noise chunk, as the two functions meet it: [save_map]
    subscripts it ([chunk_coords[0]]), [load_map] builds a [Point]. *)
Inductive chunk_key : Type :=
| KeyPair (a b : Z)
| KeyPoint (p : Point.t).

Definition chunk_key_eqb (k1 k2 : chunk_key) : bool :=
  match k1, k2 with
  | KeyPair a b, KeyPair c d => (a =? c) && (b =? d)
  | KeyPoint p, KeyPoint q => Point.eqb p q
  | _, _ => false
  end.

Module Perlin.
(** Modelled from the spec: [Perlin] of model.Perlin, the generation
    seed and the noise chunks, a dictionary that keeps whatever keys and
    chunk objects it is given. *)
Record t : Type := new { seed : Z; chunks : dict chunk_key pyobj }.
End Perlin.

Module Map.
(** Modelled from the spec: [Map] of model.Map, the aggregate root. *)
Record t : Type := mk
  { perlin : Perlin.t;
    ores : dict Point.t (dict OreType.t (list Point.t));
    structures : dict Point.t (list Structure.t);
    buildings : list Building.t }.

(** Modelled from the spec: the constructor [Map(seed)] of model.Map,
    which is not among the sources.  The world state is "freshly
    constructed" on load: the generation seed is kept and every
    collection starts empty. *)
Definition new (seed : Z) : t :=
  {| perlin := Perlin.new seed []; ores := []; structures := [];
     buildings := [] |}.

Definition set_ores (m : t) v : t :=
  {| perlin := perlin m; ores := v; structures := structures m;
     buildings := buildings m |}.
Definition set_structures (m : t) v : t :=
  {| perlin := perlin m; ores := ores m; structures := v;
     buildings := buildings m |}.
Definition set_buildings (m : t) v : t :=
  {| perlin := perlin m; ores := ores m; structures := structures m;
     buildings := v |}.
Definition set_chunks (m : t) v : t :=
  {| perlin := Perlin.new (Perlin.seed (perlin m)) v; ores := ores m;
     structures := structures m; buildings := buildings m |}.
End Map.

(** ** struct: formats, packing and unpacking *)

Inductive format : Type := fmt_B | fmt_BBBB | fmt_i | fmt_ii | fmt_f.

(** [struct.calcsize] *)
Definition calcsize (fmt : format) : nat :=
  match fmt with
  | fmt_B => 1 | fmt_BBBB => 4 | fmt_i => 4 | fmt_ii => 8 | fmt_f => 4
  end%nat.

(** The formats carry no byte-order prefix: the machine's order is used. *)
Inductive byte_order : Type := LittleEndian | BigEndian.

(** A record packed by [struct.pack] and handed to [f.write]. *)
Inductive field : Type :=
| field_B (v : Z)
| field_i (v : Z)
| field_ii (a b : Z)
| field_f (bits : Z).

Definition int32_min : Z := - 2 ^ 31.
Definition int32_max : Z := 2 ^ 31 - 1.
Definition in_int32 (v : Z) : bool := (int32_min <=? v) && (v <=? int32_max).
Definition in_uint8 (v : Z) : bool := (0 <=? v) && (v <=? 255).

(** [struct.pack('B', v)] *)
Definition pack_B (v : Z) : result field :=
  if in_uint8 v then Ok (field_B v) else Raise StructError.

(** [struct.pack('i', v)] *)
Definition pack_i (v : Z) : result field :=
  if in_int32 v then Ok (field_i v) else Raise StructError.

(** [struct.pack('ii', a, b)] *)
Definition pack_ii (a b : Z) : result field :=
  if in_int32 a && in_int32 b then Ok (field_ii a b) else Raise StructError.

(** [struct.pack('f', v)] *)
Definition pack_f (v : pyobj) : result field :=
  match v with
  | PyFloat bits => Ok (field_f bits)
  | PyList _ => Raise StructError
  end.

(** Two's complement reading of a 32-bit pattern. *)
Definition signed32 (u : Z) : Z := if u <? 2 ^ 31 then u else u - 2 ^ 32.

Section Struct.
Variable native : byte_order.

(** The four bytes of a 32-bit word, in the machine's order. *)
Definition word_bytes (v : Z) : list byte :=
  match native with
  | LittleEndian => le_split 4 v
  | BigEndian => rev (le_split 4 v)
  end.

(** The unsigned word that four bytes stand for. *)
Definition word_of_bytes (data : list byte) : Z :=
  match native with
  | LittleEndian => le_combine data
  | BigEndian => le_combine (rev data)
  end.

Definition field_bytes (fld : field) : list byte :=
  match fld with
  | field_B v => [byte.of_Z v]
  | field_i v => word_bytes v
  | field_ii a b => word_bytes a ++ word_bytes b
  | field_f bits => word_bytes bits
  end.

(** The contents of a written file. *)
Definition file_bytes (f : list field) : list byte :=
  flat_map field_bytes f.

(** [struct.unpack(fmt, data)]: struct.error unless [data] has exactly
    [calcsize fmt] bytes. *)
Definition unpack_B (data : list byte) : result Z :=
  match data with
  | [b] => Ok (byte.unsigned b)
  | _ => Raise StructError
  end.

Definition unpack_BBBB (data : list byte) : result (list Z) :=
  if (length data =? 4)%nat then Ok (List.map byte.unsigned data)
  else Raise StructError.

Definition unpack_i (data : list byte) : result Z :=
  if (length data =? 4)%nat then Ok (signed32 (word_of_bytes data))
  else Raise StructError.

Definition unpack_ii (data : list byte) : result (Z * Z) :=
  if (length data =? 8)%nat
  then Ok (signed32 (word_of_bytes (firstn 4 data)),
           signed32 (word_of_bytes (skipn 4 data)))
  else Raise StructError.

Definition unpack_f (data : list byte) : result pyobj :=
  if (length data =? 4)%nat then Ok (PyFloat (word_of_bytes data))
  else Raise StructError.
End Struct.

(** ** Files *)

(** A file opened for writing: the records written so far. *)
Definition outfile : Type := list field.

(** [f.write(data)] *)
Definition f_write (packed : field) : M outfile unit :=
  fun f => (Ok tt, f ++ [packed]).

(** One [f.read] of the journal: the line of [load_map] that issued it,
    the format it was unpacked with, the bytes it returned. *)
Record read_event : Type :=
  Read { rd_line : nat; rd_fmt : format; rd_data : list byte }.

(** A file opened for reading: the bytes after the current position and
    the journal of the reads made so far. *)
Record infile : Type := InFile { unread : list byte; reads : list read_event }.

Definition open_rb (content : list byte) : infile :=
  {| unread := content; reads := [] |}.

(** [f.read(calcsize(fmt))]: the bytes asked for, fewer at end of file. *)
Definition f_read (line : nat) (fmt : format) : M infile (list byte) :=
  fun f =>
    let data := firstn (calcsize fmt) (unread f) in
    (Ok data,
     {| unread := skipn (calcsize fmt) (unread f);
        reads := reads f ++ [Read line fmt data] |}).

(** ** Saver *)

Section Saver.
(** The machine's byte order. *)
Variable native : byte_order.
(** [Perlin.CHUNK_SIZE], a constant of model.Perlin. *)
Variable CHUNK_SIZE : Z.
(** The values of the members of the enumeration [OreType] of
    model.Structures. *)
Variable OreType_values : list Z.
(** [p[i]] on a [Point] of model.Geometry: whether the class supports
    subscripting is not visible from the sources at hand. *)
Variable Point_getitem : Point.t -> Z -> result Z.

(** [chunk_coords[i]] on the key of a noise chunk. *)
Definition key_getitem (chunk_coords : chunk_key) (i : Z) : result Z :=
  match chunk_coords with
  | KeyPair a b =>
      if i =? 0 then Ok a else if i =? 1 then Ok b else Raise IndexError
  | KeyPoint p => Point_getitem p i
  end.

Definition signature : list Z := [77; 65; 80; 0]. (* 'MAP_' in ASCII *)

Definition write_B (v : Z) : M outfile unit :=
  packed <- lift (pack_B v) ;; f_write packed.
Definition write_i (v : Z) : M outfile unit :=
  packed <- lift (pack_i v) ;; f_write packed.
Definition write_ii (a b : Z) : M outfile unit :=
  packed <- lift (pack_ii a b) ;; f_write packed.
Definition write_f (v : pyobj) : M outfile unit :=
  packed <- lift (pack_f v) ;; f_write packed.

Definition write_points (points : list Point.t) : M outfile unit :=
  for_each points (fun point => write_ii (Point.x point) (Point.y point)).

Definition save_ores (map : Map.t) : M outfile unit :=
  write_i (len (Map.ores map)) ;;;
  for_each (items (Map.ores map)) (fun '(chunk_coords, ores) =>
    write_ii (Point.x chunk_coords) (Point.y chunk_coords) ;;;
    write_i (len ores) ;;;
    for_each (items ores) (fun '(ore_type, ore) =>
      write_B (OreType.value ore_type) ;;;
      write_i (len ore) ;;;
      write_points ore)).

Definition save_structures (map : Map.t) : M outfile unit :=
  write_i (len (Map.structures map)) ;;;
  for_each (items (Map.structures map)) (fun '(chunk_coords, structures) =>
    write_ii (Point.x chunk_coords) (Point.y chunk_coords) ;;;
    write_i (len structures) ;;;
    for_each structures (fun structure =>
      write_i (Structure.structure_type structure) ;;;
      write_ii (Point.x (Structure.position structure))
               (Point.y (Structure.position structure)) ;;;
      write_i (len (Structure.points structure)) ;;;
      write_points (Structure.points structure))).

Definition save_buildings (map : Map.t) : M outfile unit :=
  write_i (len (Map.buildings map)) ;;;
  for_each (Map.buildings map) (fun building =>
    write_ii (Point.x (Building.position building))
             (Point.y (Building.position building)) ;;;
    write_i (len (Building.points building)) ;;;
    write_points (Building.points building)).

Definition save_noise (map : Map.t) : M outfile unit :=
  write_i CHUNK_SIZE ;;;
  write_i (len (Perlin.chunks (Map.perlin map))) ;;;
  for_each (items (Perlin.chunks (Map.perlin map)))
    (fun '(chunk_coords, chunk) =>
      c0 <- lift (key_getitem chunk_coords 0) ;;
      c1 <- lift (key_getitem chunk_coords 1) ;;
      write_ii c0 c1 ;;;
      rows <- lift (py_len chunk) ;;
      write_i rows ;;;
      chunk_0 <- lift (py_getitem0 chunk) ;;
      chunk_0_rows <- lift (py_iter chunk_0) ;;
      for_each chunk_0_rows (fun row =>
        values <- lift (py_iter row) ;;
        for_each values (fun value => write_f value))).

(** [Saver.save_map] (lines 12-55), on the file just opened. *)
Definition save_map (map : Map.t) : M outfile unit :=
  for_each signature (fun b => write_B b) ;;;
  write_i (Perlin.seed (Map.perlin map)) ;;;
  save_ores map ;;;
  save_structures map ;;;
  save_buildings map ;;;
  save_noise map.

(** [struct.unpack(fmt, f.read(calcsize(fmt)))], issued at [line]. *)
Definition read_B (line : nat) : M infile Z :=
  data <- f_read line fmt_B ;; lift (unpack_B data).
Definition read_BBBB (line : nat) : M infile (list Z) :=
  data <- f_read line fmt_BBBB ;; lift (unpack_BBBB data).
Definition read_i (line : nat) : M infile Z :=
  data <- f_read line fmt_i ;; lift (unpack_i native data).
Definition read_ii (line : nat) : M infile (Z * Z) :=
  data <- f_read line fmt_ii ;; lift (unpack_ii native data).
Definition read_f (line : nat) : M infile pyobj :=
  data <- f_read line fmt_f ;; lift (unpack_f native data).

(** [OreType(struct.unpack('B', f.read(1))[0])] *)
Definition read_OreType (line : nat) : M infile OreType.t :=
  tag <- read_B line ;; lift (OreType.call OreType_values tag).

(** The loop that fills [points], met at lines 76, 92 and 103. *)
Definition load_points (line : nat) (num_points : Z)
  : M infile (list Point.t) :=
  for_in (range num_points) (fun _ points =>
    '(point_x, point_y) <- read_ii line ;;
    ret (points ++ [Point.new point_x point_y])) [].

Definition load_ores (map : Map.t) : M infile Map.t :=
  num_ores <- read_i 67 ;;
  for_in (range num_ores) (fun _ map =>
    '(chunk_x, chunk_y) <- read_ii 69 ;;
    num_ores_in_chunk <- read_i 70 ;;
    ores <- for_in (range num_ores_in_chunk) (fun _ ores =>
        ore_type <- read_OreType 73 ;;
        num_points <- read_i 74 ;;
        points <- load_points 77 num_points ;;
        ret (dict_set OreType.eqb ores ore_type points)) [] ;;
    ret (Map.set_ores map
           (dict_set Point.eqb (Map.ores map)
              (Point.new chunk_x chunk_y) ores))) map.

Definition load_structures (map : Map.t) : M infile Map.t :=
  num_structures <- read_i 82 ;;
  for_in (range num_structures) (fun _ map =>
    '(chunk_x, chunk_y) <- read_ii 84 ;;
    num_structures_in_chunk <- read_i 85 ;;
    structures <- for_in (range num_structures_in_chunk)
      (fun _ structures =>
        structure_type <- read_i 88 ;;
        '(position_x, position_y) <- read_ii 89 ;;
        num_points <- read_i 90 ;;
        points <- load_points 93 num_points ;;
        ret (structures ++
               [Structure.new structure_type
                  (Point.new position_x position_y) points])) [] ;;
    ret (Map.set_structures map
           (dict_set Point.eqb (Map.structures map)
              (Point.new chunk_x chunk_y) structures))) map.

Definition load_buildings (map : Map.t) : M infile Map.t :=
  num_buildings <- read_i 98 ;;
  for_in (range num_buildings) (fun _ map =>
    '(position_x, position_y) <- read_ii 100 ;;
    num_points <- read_i 101 ;;
    points <- load_points 104 num_points ;;
    ret (Map.set_buildings map
           (Map.buildings map ++
              [Building.new (Point.new position_x position_y) points])))
    map.

(** [[[0.0] * num_cols for _ in range(num_rows)]] *)
Definition zero_chunk (num_rows num_cols : Z) : list (list pyobj) :=
  List.map (fun _ => repeat (PyFloat 0) (Z.to_nat num_cols))
           (range num_rows).

Definition load_chunk (chunk_size : Z) : M infile (list (list pyobj)) :=
  let num_rows := chunk_size in
  let num_cols := chunk_size in
  for_in (range num_rows) (fun i chunk =>
    for_in (range num_cols) (fun j chunk =>
      value <- read_f 117 ;;
      lift (setitem2 chunk i j value)) chunk)
    (zero_chunk num_rows num_cols).

Definition load_noise (map : Map.t) : M infile Map.t :=
  chunk_size <- read_i 108 ;;
  num_chunks <- read_i 109 ;;
  for_in (range num_chunks) (fun _ map =>
    '(chunk_x, chunk_y) <- read_ii 111 ;;
    chunk <- load_chunk chunk_size ;;
    ret (Map.set_chunks map
           (dict_set chunk_key_eqb (Perlin.chunks (Map.perlin map))
              (KeyPoint (Point.new chunk_x chunk_y))
              (PyList (List.map PyList chunk))))) map.

(** [Saver.load_map] (lines 57-120), on the file just opened. *)
Definition load_map : M infile Map.t :=
  file_signature <- read_BBBB 60 ;;
  if list_ne file_signature signature
  then raise (ValueError "Invalid file format")
  else
    seed <- read_i 64 ;;
    let map := Map.new seed in
    map <- load_ores map ;;
    map <- load_structures map ;;
    map <- load_buildings map ;;
    map <- load_noise map ;;
    ret map.

(** What [save_map] leaves in a fresh file, and whether it raised. *)
Definition save (map : Map.t) : result unit * list byte :=
  let '(r, f) := save_map map [] in (r, file_bytes native f).

(** [load_map] on a file with the given contents. *)
Definition load (content : list byte) : result Map.t :=
  fst (load_map (open_rb content)).
End Saver.

(** ** Vocabulary of the statements *)

(** The magic signature as it stands in a file. *)
Definition signature_bytes : list byte := List.map byte.of_Z signature.

(** The file after one [f.read] issued at [line] for [fmt]. *)
Definition after_read (line : nat) (fmt : format) (f : infile) : infile :=
  {| unread := skipn (calcsize fmt) (unread f);
     reads := reads f ++ [Read line fmt (firstn (calcsize fmt) (unread f))] |}.

(** Membership in the enumeration, as [OreType(v)] tests it. *)
Definition recognized (OreType_values : list Z) (v : Z) : bool :=
  existsb (Z.eqb v) OreType_values.

(** The ore-kind tag a read returned: the one-byte read of line 73 is the
    place where [load_map] expects a tag. *)
Definition tag_of (e : read_event) : option Z :=
  match rd_fmt e, rd_data e with
  | fmt_B, [b] => if (rd_line e =? 73)%nat then Some (byte.unsigned b) else None
  | _, _ => None
  end.

(** Some read of the journal met a tag outside the enumeration. *)
Definition unknown_tag_read (OreType_values : list Z) (f : infile) : Prop :=
  exists e v,
    In e (reads f) /\ tag_of e = Some v /\ recognized OreType_values v = false.

(** Every tag read so far is a member's value. *)
Definition tags_ok (OreType_values : list Z) (f : infile) : Prop :=
  Forall (fun e => forall v, tag_of e = Some v ->
                             recognized OreType_values v = true) (reads f).

Definition not_an_OreType : exn := ValueError "not a valid OreType".

(** [struct.pack] accepts the values of the record. *)
Definition packable (fld : field) : bool :=
  match fld with
  | field_B v => in_uint8 v
  | field_i v => in_int32 v
  | field_ii a b => in_int32 a && in_int32 b
  | field_f _ => true
  end.


(** The records that depend on a value the code computes first: none
    when computing it raises. *)
Definition when_ok {A} (r : result A) (k : A -> list field) : list field :=
  match r with
  | Ok a => k a
  | Raise _ => []
  end.

(** *** The layout of a save file

    The records [save_map] sets out to write for a map, in the order of
    its statements and loops. *)

Section Layout.
Variable CHUNK_SIZE : Z.
Variable Point_getitem : Point.t -> Z -> result Z.

Definition points_layout (points : list Point.t) : list field :=
  flat_map (fun point => [field_ii (Point.x point) (Point.y point)]) points.

Definition ore_layout (entry : OreType.t * list Point.t) : list field :=
  let '(ore_type, ore) := entry in
  [field_B (OreType.value ore_type)] ++ [field_i (len ore)]
    ++ points_layout ore.

Definition ore_chunk_layout
    (entry : Point.t * dict OreType.t (list Point.t)) : list field :=
  let '(chunk_coords, ores) := entry in
  [field_ii (Point.x chunk_coords) (Point.y chunk_coords)]
    ++ [field_i (len ores)] ++ flat_map ore_layout (items ores).

Definition ores_layout (map : Map.t) : list field :=
  [field_i (len (Map.ores map))]
    ++ flat_map ore_chunk_layout (items (Map.ores map)).

Definition structure_layout (structure : Structure.t) : list field :=
  [field_i (Structure.structure_type structure)]
    ++ [field_ii (Point.x (Structure.position structure))
                 (Point.y (Structure.position structure))]
    ++ [field_i (len (Structure.points structure))]
    ++ points_layout (Structure.points structure).

Definition structure_chunk_layout
    (entry : Point.t * list Structure.t) : list field :=
  let '(chunk_coords, structures) := entry in
  [field_ii (Point.x chunk_coords) (Point.y chunk_coords)]
    ++ [field_i (len structures)] ++ flat_map structure_layout structures.

Definition structures_layout (map : Map.t) : list field :=
  [field_i (len (Map.structures map))]
    ++ flat_map structure_chunk_layout (items (Map.structures map)).

Definition building_layout (building : Building.t) : list field :=
  [field_ii (Point.x (Building.position building))
            (Point.y (Building.position building))]
    ++ [field_i (len (Building.points building))]
    ++ points_layout (Building.points building).

Definition buildings_layout (map : Map.t) : list field :=
  [field_i (len (Map.buildings map))]
    ++ flat_map building_layout (Map.buildings map).

Definition sample_layout (value : pyobj) : list field :=
  when_ok (pack_f value) (fun packed => [packed]).

Definition row_layout (row : pyobj) : list field :=
  when_ok (py_iter row) (fun values => flat_map sample_layout values).

(** The entry of a noise chunk, as lines 51-55 walk it: the key
    subscripted twice, [len(chunk)], then the rows of [chunk[0]]. *)
Definition noise_chunk_layout (entry : chunk_key * pyobj) : list field :=
  let '(chunk_coords, chunk) := entry in
  when_ok (key_getitem Point_getitem chunk_coords 0) (fun c0 =>
  when_ok (key_getitem Point_getitem chunk_coords 1) (fun c1 =>
    [field_ii c0 c1] ++
    when_ok (py_len chunk) (fun rows =>
      [field_i rows] ++
      when_ok (py_getitem0 chunk) (fun chunk_0 =>
      when_ok (py_iter chunk_0) (fun chunk_0_rows =>
        flat_map row_layout chunk_0_rows))))).

Definition noise_layout (map : Map.t) : list field :=
  [field_i CHUNK_SIZE] ++ [field_i (len (Perlin.chunks (Map.perlin map)))]
    ++ flat_map noise_chunk_layout (items (Perlin.chunks (Map.perlin map))).

Definition layout (map : Map.t) : list field :=
  flat_map (fun b => [field_B b]) signature
    ++ [field_i (Perlin.seed (Map.perlin map))]
    ++ ores_layout map ++ structures_layout map ++ buildings_layout map
    ++ noise_layout map.
End Layout.

(** *** Noise grids *)

Definition is_sample (o : pyobj) : bool :=
  match o with PyFloat _ => true | PyList _ => false end.

(** A row of [n] samples. *)
Definition is_row (n : Z) (o : pyobj) : bool :=
  match o with
  | PyList values => (len values =? n) && forallb is_sample values
  | PyFloat _ => false
  end.

(** A grid of exactly [n] rows of exactly [n] samples each. *)
Definition square_grid (n : Z) (o : pyobj) : bool :=
  match o with
  | PyList rows => (len rows =? n) && forallb (is_row n) rows
  | PyFloat _ => false
  end.

Definition is_point_key (k : chunk_key) : bool :=
  match k with KeyPoint _ => true | KeyPair _ _ => false end.

(** The noise chunks of a map. *)
Definition noise_chunks (map : Map.t) : dict chunk_key pyobj :=
  Perlin.chunks (Map.perlin map).

(** *** Well-formed maps

    The invariants of the data model that the file format relies on:
    every value fits its field, every ore kind is a member of the
    enumeration, and no dictionary holds a key twice. *)

Definition ore_kinds_ok (OreType_values : list Z)
    (ores : dict OreType.t (list Point.t)) : Prop :=
  NoDup (keys ores)
  /\ Forall (fun entry =>
               recognized OreType_values (OreType.value (fst entry)) = true)
            ores.

Definition well_formed (CHUNK_SIZE : Z)
    (Point_getitem : Point.t -> Z -> result Z)
    (OreType_values : list Z) (map : Map.t) : Prop :=
  forallb packable (layout CHUNK_SIZE Point_getitem map) = true
  /\ NoDup (keys (Map.ores map))
  /\ Forall (fun entry => ore_kinds_ok OreType_values (snd entry))
            (Map.ores map)
  /\ NoDup (keys (Map.structures map)).

(** *** Sample data *)

(** A [Point] class without [__getitem__]. *)
Definition Point_not_subscriptable : Point.t -> Z -> result Z :=
  fun _ _ => Raise TypeError.

(** The binary32 pattern of 1.0 (0x3F800000). *)
Definition float_one : Z := 1065353216.

(** A 1 x 1 and a 2 x 2 grid of samples. *)
Definition grid_1x1 : pyobj := PyList [PyList [PyFloat float_one]].
Definition grid_2x2 : pyobj :=
  PyList [PyList [PyFloat 0; PyFloat float_one];
          PyList [PyFloat float_one; PyFloat 0]].

(** A chunk whose first item is the grid: the one shape that lines 52-55
    walk down to the samples. *)
Definition nested_1x1 : pyobj := PyList [grid_1x1].

(** The world of seed 0 whose only content is one noise chunk at (0, 0). *)
Definition world_with_chunk (chunk : pyobj) : Map.t :=
  Map.set_chunks (Map.new 0) [(KeyPair 0 0, chunk)].

(** The file of section 4.1 for one noise chunk of side 1 at (0, 0):
    signature, seed 0, three zero counts, chunk size 1, one chunk, its
    coordinates, its row count 1, its sample 1.0. *)
Definition one_chunk_file : list field :=
  [field_B 77; field_B 65; field_B 80; field_B 0; field_i 0;
   field_i 0; field_i 0; field_i 0;
   field_i 1; field_i 1; field_ii 0 0; field_i 1; field_f float_one].

(** A record format, cut into the formats of its values. *)
Definition values_of_format (fmt : format) : list format :=
  match fmt with
  | fmt_BBBB => [fmt_B; fmt_B; fmt_B; fmt_B]
  | fmt_ii => [fmt_i; fmt_i]
  | fmt_B | fmt_i | fmt_f => [fmt]
  end.

Definition field_format (fld : field) : format :=
  match fld with
  | field_B _ => fmt_B
  | field_i _ => fmt_i
  | field_ii _ _ => fmt_ii
  | field_f _ => fmt_f
  end.

(** The formats of the values written to, and read from, a file. *)
Definition written_formats (f : outfile) : list format :=
  flat_map (fun fld => values_of_format (field_format fld)) f.
Definition read_formats (f : infile) : list format :=
  flat_map (fun e => values_of_format (rd_fmt e)) (reads f).

(** A file whose stored chunk size is -1, with one noise chunk at (0, 0):
    no sample follows the coordinates. *)
Definition negative_size_file : list field :=
  [field_B 77; field_B 65; field_B 80; field_B 0; field_i 0;
   field_i 0; field_i 0; field_i 0;
   field_i (-1); field_i 1; field_ii 0 0].

(** A file whose stored chunk size is 2, with one noise chunk at (3, -4)
    and its four samples. *)
Definition side_2_file : list field :=
  [field_B 77; field_B 65; field_B 80; field_B 0; field_i 0;
   field_i 0; field_i 0; field_i 0;
   field_i 2; field_i 1; field_ii 3 (-4);
   field_f 0; field_f float_one; field_f float_one; field_f 0].

(** A file with one ore chunk whose first ore-kind tag is 9. *)
Definition tag_9_file : list field :=
  [field_B 77; field_B 65; field_B 80; field_B 0; field_i 0;
   field_i 1; field_ii 0 0; field_i 1; field_B 9; field_i 0].

(** An enumeration of three kinds, for the examples. *)
Definition three_kinds : list Z := [0; 1; 2].

(** A world with one ore deposit, one structure and one building. *)
Definition small_world : Map.t :=
  {| Map.perlin := Perlin.new (-5) [];
     Map.ores :=
       [(Point.new 1 (-2),
         [(OreType.member 1, [Point.new 3 4; Point.new 5 6])])];
     Map.structures :=
       [(Point.new 0 0,
         [Structure.new 9 (Point.new 1 1) [Point.new 2 2]])];
     Map.buildings := [Building.new (Point.new 7 7) [Point.new 8 8]] |}.

(** *** Specifications of computations *)

(** Every normal outcome of [m] returns a value that satisfies [Q]. *)
Definition returns {S A} (m : M S A) (Q : A -> Prop) : Prop :=
  forall s a s', m s = (Ok a, s') -> Q a.

(** A computation that, from a journal with known tags only, either
    keeps it so or raises the enumeration's ValueError. *)
Definition tag_safe (OreType_values : list Z) {A} (m : M infile A)
  : Prop :=
  forall f, tags_ok OreType_values f ->
    tags_ok OreType_values (snd (m f)) \/ fst (m f) = Raise not_an_OreType.

(** Whatever its outcome, [m] only adds to the journal reads issued at
    lines that satisfy [P]. *)
Definition reads_at (P : nat -> bool) {A} (m : M infile A) : Prop :=
  forall f, exists new,
    reads (snd (m f)) = reads f ++ new
    /\ forallb (fun e => P (rd_line e)) new = true.

(** Line 108 is where [chunk_size] is read. *)
Definition not_line_108 (line : nat) : bool := negb (line =? 108)%nat.

(** The local [chunk] of lines 114-117: [n] rows of [n] samples. *)
Definition chunk_shape (n : nat) (chunk : list (list pyobj)) : Prop :=
  length chunk = n
  /\ Forall (fun row => length row = n /\ forallb is_sample row = true) chunk.

(** The noise entries of a decoded map: keyed by a [Point], and holding
    a square grid of side [max(chunk_size, 0)]. *)
Definition noise_entries_ok (chunk_size : Z) (map : Map.t) : Prop :=
  Forall (fun entry =>
            is_point_key (fst entry) = true
            /\ square_grid (Z.max 0 chunk_size) (snd entry) = true)
         (noise_chunks map).

(** [m] appends to the file an initial part of the records [L], all of
    them packable, and all of [L] when it ends normally. *)
Definition writes_prefix {A} (m : M outfile A) (L : list field) : Prop :=
  forall f, exists done later,
    L = done ++ later /\ snd (m f) = f ++ done /\
    forallb packable done = true /\
    (is_ok (fst (m f)) = true -> later = []).

(** [m] writes all the records [L] when they are packable. *)
Definition writes_all (m : M outfile unit) (L : list field) : Prop :=
  forallb packable L = true -> forall f, m f = (Ok tt, f ++ L).

(** A computation that raises from every state. *)
Definition raises {S A} (m : M S A) : Prop :=
  forall s, exists e s', m s = (Raise e, s').

(** On a file that starts with the bytes of the records [L], [m]
    consumes exactly these bytes and returns [a]; on a file that ends
    before the last of these bytes, [m] raises. *)
Definition parses (native : byte_order) {A} (m : M infile A)
    (L : list field) (a : A) : Prop :=
  (forall rest journal, exists journal',
      m {| unread := file_bytes native L ++ rest; reads := journal |}
      = (Ok a, {| unread := rest; reads := journal' |}))
  /\ (forall n journal,
        (n < length (file_bytes native L))%nat ->
        exists e f',
          m {| unread := firstn n (file_bytes native L); reads := journal |}
          = (Raise e, f')).

(** *** Further specifications of computations *)

(** Every outcome of [m]: a value that satisfies [Q], or an exception
    that satisfies [E]. *)
Definition outcome {S A} (m : M S A) (Q : A -> Prop) (E : exn -> Prop)
  : Prop :=
  forall s,
    match fst (m s) with
    | Ok a => Q a
    | Raise e => E e
    end.

(** The exceptions [load_map] raises: the two ValueErrors and
    struct.error. *)
Definition load_error (e : exn) : Prop :=
  e = ValueError "Invalid file format" \/ e = not_an_OreType
  \/ e = StructError.



(** The file [f] with the bytes [extra] appended. *)
Definition with_extra (f : infile) (extra : list byte) : infile :=
  {| unread := unread f ++ extra; reads := reads f |}.

(** A normal outcome of [m] is not changed by bytes appended to the
    file: they are left unread. *)
Definition blind_to_extra {A} (m : M infile A) : Prop :=
  forall f a f' extra,
    m f = (Ok a, f') -> m (with_extra f extra) = (Ok a, with_extra f' extra).

(** A file that holds, after the signature and the seed, nothing but
    the four counts and the chunk size. *)
Definition counts_only_file
    (seed num_ores num_structures num_buildings chunk_size num_chunks : Z)
  : list field :=
  [field_B 77; field_B 65; field_B 80; field_B 0; field_i seed;
   field_i num_ores; field_i num_structures; field_i num_buildings;
   field_i chunk_size; field_i num_chunks].

(** *** What holds of every map read from a file *)

Definition point_ok (p : Point.t) : Prop :=
  in_int32 (Point.x p) = true /\ in_int32 (Point.y p) = true.

(** A list of points whose length and coordinates fit 32 bits. *)
Definition points_ok (points : list Point.t) : Prop :=
  in_int32 (len points) = true /\ Forall point_ok points.

Definition ore_kind_ok (OreType_values : list Z) (ore_type : OreType.t)
  : Prop :=
  in_uint8 (OreType.value ore_type) = true
  /\ recognized OreType_values (OreType.value ore_type) = true.

(** The ores of a chunk: distinct kinds of the enumeration, each with
    its points. *)
Definition ores_ok (OreType_values : list Z)
    (ores : dict OreType.t (list Point.t)) : Prop :=
  in_int32 (len ores) = true /\ NoDup (keys ores)
  /\ Forall (fun entry => ore_kind_ok OreType_values (fst entry)
                          /\ points_ok (snd entry)) ores.

Definition structure_ok (structure : Structure.t) : Prop :=
  in_int32 (Structure.structure_type structure) = true
  /\ point_ok (Structure.position structure)
  /\ points_ok (Structure.points structure).

Definition structures_ok (structures : list Structure.t) : Prop :=
  in_int32 (len structures) = true /\ Forall structure_ok structures.

Definition building_ok (building : Building.t) : Prop :=
  point_ok (Building.position building)
  /\ points_ok (Building.points building).

(** A dictionary indexed by chunk: distinct chunk coordinates that fit
    32 bits, each with a value that satisfies [value_ok]. *)
Definition chunks_ok {V} (value_ok : V -> Prop) (d : dict Point.t V) : Prop :=
  in_int32 (len d) = true /\ NoDup (keys d)
  /\ Forall (fun entry => point_ok (fst entry) /\ value_ok (snd entry)) d.

(** The invariants of a map read from a file: no dictionary holds a key
    twice, every ore kind is a member of the enumeration, and every
    integer and every length fits the field [save_map] packs it in. *)
Definition loaded_ok (OreType_values : list Z) (map : Map.t) : Prop :=
  in_int32 (Perlin.seed (Map.perlin map)) = true
  /\ chunks_ok (ores_ok OreType_values) (Map.ores map)
  /\ chunks_ok structures_ok (Map.structures map)
  /\ (in_int32 (len (Map.buildings map)) = true
      /\ Forall building_ok (Map.buildings map))
  /\ NoDup (keys (noise_chunks map)).

(** *** The size of a save file without noise chunks *)

(** The entry of an ore kind: 1 byte of tag, 4 of count, 8 per point. *)
Definition ore_size (entry : OreType.t * list Point.t) : nat :=
  (5 + 8 * length (snd entry))%nat.

(** The entry of an ore chunk: 8 bytes of coordinates, 4 of count. *)
Definition ore_chunk_size
    (entry : Point.t * dict OreType.t (list Point.t)) : nat :=
  (12 + list_sum (List.map ore_size (snd entry)))%nat.

(** A structure: 4 bytes of type, 8 of anchor, 4 of count, 8 per point. *)
Definition structure_size (structure : Structure.t) : nat :=
  (16 + 8 * length (Structure.points structure))%nat.

Definition structure_chunk_size (entry : Point.t * list Structure.t) : nat :=
  (12 + list_sum (List.map structure_size (snd entry)))%nat.

(** A building: 8 bytes of anchor, 4 of count, 8 per point. *)
Definition building_size (building : Building.t) : nat :=
  (12 + 8 * length (Building.points building))%nat.

(** 28 bytes of signature, seed, counts and chunk size, then the
    entries. *)
Definition save_size (map : Map.t) : nat :=
  (28 + list_sum (List.map ore_chunk_size (Map.ores map))
      + list_sum (List.map structure_chunk_size (Map.structures map))
      + list_sum (List.map building_size (Map.buildings map)))%nat.

(** *** The noise section as [load_map] reads it *)

(** A grid of samples, given by the binary32 patterns of its floats, as
    the list of lists [load_map] builds. *)
Definition py_grid (grid : list (list Z)) : pyobj :=
  PyList (List.map (fun row => PyList (List.map PyFloat row)) grid).

(** [n] rows of [n] binary32 patterns. *)
Definition grid_ok (n : nat) (grid : list (list Z)) : Prop :=
  length grid = n
  /\ Forall (fun row => length row = n
                        /\ Forall (fun bits => 0 <= bits < 2 ^ 32) row) grid.

(** The samples of a grid, row after row. *)
Definition samples_layout (grid : list (list Z)) : list field :=
  flat_map (fun row => List.map field_f row) grid.

(** The entry of a noise chunk in the form lines 111-117 read it: the
    coordinates, then the samples; no row count. *)
Definition read_chunk_layout (entry : Point.t * list (list Z)) : list field :=
  [field_ii (Point.x (fst entry)) (Point.y (fst entry))]
    ++ samples_layout (snd entry).

(** A file without ores, structures and buildings whose noise section
    has that form. *)
Definition read_noise_file (seed chunk_size : Z)
    (chunks : list (Point.t * list (list Z))) : list field :=
  flat_map (fun b => [field_B b]) signature
    ++ [field_i seed] ++ [field_i 0] ++ [field_i 0] ++ [field_i 0]
    ++ ([field_i chunk_size] ++ [field_i (len chunks)]
          ++ flat_map read_chunk_layout chunks).

(** The noise dictionary [load_map] builds from these entries. *)
Definition read_noise_chunks (chunks : list (Point.t * list (list Z)))
  : dict chunk_key pyobj :=
  List.map (fun entry => (KeyPoint (fst entry), py_grid (snd entry))) chunks.

(** * Properties *)

(** ** The monad *)

Lemma bind_Ok {S A B} (m : M S A) (k : A -> M S B) s a s' :
  m s = (Ok a, s') -> bind m k s = k a s'.
Proof. intros H. unfold bind. rewrite H. reflexivity. Qed.

Lemma bind_Raise {S A B} (m : M S A) (k : A -> M S B) s e s' :
  m s = (Raise e, s') -> bind m k s = (Raise e, s').
Proof. intros H. unfold bind. rewrite H. reflexivity. Qed.

Lemma bind_Ok_inv {S A B} (m : M S A) (k : A -> M S B) s b s' :
  bind m k s = (Ok b, s') ->
  exists a s1, m s = (Ok a, s1) /\ k a s1 = (Ok b, s').
Proof.
  unfold bind. destruct (m s) as [[a|e] s1]; intros H.
  - exists a, s1. split; [reflexivity | exact H].
  - discriminate H.
Qed.

Lemma lift_Ok_inv {S A} (r : result A) (s : S) a s' :
  lift r s = (Ok a, s') -> r = Ok a /\ s' = s.
Proof. unfold lift. intros H. inversion H. split; reflexivity. Qed.

Lemma ret_Ok_inv {S A} (a0 : A) (s : S) a s' :
  ret a0 s = (Ok a, s') -> a = a0 /\ s' = s.
Proof. unfold ret. intros H. inversion H. split; reflexivity. Qed.

(** A loop that ends normally kept its invariant at every iteration. *)
Lemma for_in_Ok_inv {S A T} (I : T -> S -> Prop) (body : A -> T -> M S T) :
  (forall x acc s acc' s',
      I acc s -> body x acc s = (Ok acc', s') -> I acc' s') ->
  forall xs acc s acc' s',
    I acc s -> for_in xs body acc s = (Ok acc', s') -> I acc' s'.
Proof.
  intros Hbody xs. induction xs as [|x xs IH]; intros acc s acc' s' HI H.
  - apply ret_Ok_inv in H. destruct H as [-> ->]. exact HI.
  - cbn [for_in] in H. apply bind_Ok_inv in H.
    destruct H as (acc1 & s1 & H1 & H2).
    eapply IH; [|exact H2]. eapply Hbody; eassumption.
Qed.

(** ** Lists *)

Lemma firstn_exact {A} n (l1 l2 : list A) :
  length l1 = n -> firstn n (l1 ++ l2) = l1.
Proof.
  intros <-. rewrite firstn_app, firstn_all, Nat.sub_diag, firstn_0.
  apply app_nil_r.
Qed.

Lemma skipn_exact {A} n (l1 l2 : list A) :
  length l1 = n -> skipn n (l1 ++ l2) = l2.
Proof.
  intros <-. rewrite skipn_app, skipn_all, Nat.sub_diag, skipn_0.
  reflexivity.
Qed.

(** ** struct *)

Lemma in_int32_spec v : in_int32 v = true <-> - 2 ^ 31 <= v <= 2 ^ 31 - 1.
Proof. unfold in_int32, int32_min, int32_max. lia. Qed.

Lemma in_uint8_spec v : in_uint8 v = true <-> 0 <= v <= 255.
Proof. unfold in_uint8. lia. Qed.

Lemma signed32_wrap v : in_int32 v = true -> signed32 (v mod 2 ^ 32) = v.
Proof.
  rewrite in_int32_spec. intros Hv. unfold signed32.
  destruct (Z.ltb_spec (v mod 2 ^ 32) (2 ^ 31)) as [Hlt|Hge];
    change (2 ^ 32) with 4294967296 in *; change (2 ^ 31) with 2147483648 in *;
    Z.div_mod_to_equations; lia.
Qed.

Section StructFacts.
Variable native : byte_order.

Lemma length_word_bytes v : length (word_bytes native v) = 4%nat.
Proof.
  unfold word_bytes. destruct native;
    rewrite ?length_rev; apply length_le_split.
Qed.

Lemma word_of_bytes_word_bytes v :
  word_of_bytes native (word_bytes native v) = v mod 2 ^ 32.
Proof.
  unfold word_of_bytes, word_bytes. destruct native;
    rewrite ?rev_involutive; apply (le_combine_split 4).
Qed.

Lemma unpack_i_word_bytes v :
  in_int32 v = true -> unpack_i native (word_bytes native v) = Ok v.
Proof.
  intros Hv. unfold unpack_i.
  rewrite length_word_bytes, word_of_bytes_word_bytes, signed32_wrap by exact Hv.
  reflexivity.
Qed.

Lemma unpack_ii_word_bytes a b :
  in_int32 a = true -> in_int32 b = true ->
  unpack_ii native (word_bytes native a ++ word_bytes native b) = Ok (a, b).
Proof.
  intros Ha Hb. unfold unpack_ii.
  rewrite length_app, !length_word_bytes. cbn [Nat.add Nat.eqb].
  rewrite firstn_exact, skipn_exact by apply length_word_bytes.
  rewrite !word_of_bytes_word_bytes, !signed32_wrap by assumption.
  reflexivity.
Qed.

Lemma unpack_f_word_bytes bits :
  0 <= bits < 2 ^ 32 ->
  unpack_f native (word_bytes native bits) = Ok (PyFloat bits).
Proof.
  intros Hb. unfold unpack_f.
  rewrite length_word_bytes, word_of_bytes_word_bytes, Z.mod_small by exact Hb.
  reflexivity.
Qed.

Lemma length_field_bytes fld :
  length (field_bytes native fld) =
  match fld with
  | field_B _ => 1 | field_i _ => 4 | field_ii _ _ => 8 | field_f _ => 4
  end%nat.
Proof.
  destruct fld; cbn [field_bytes length];
    rewrite ?length_app, ?length_word_bytes; reflexivity.
Qed.
End StructFacts.

Lemma unpack_B_of_Z v : in_uint8 v = true -> unpack_B [byte.of_Z v] = Ok v.
Proof.
  rewrite in_uint8_spec. intros Hv. unfold unpack_B.
  rewrite byte.unsigned_of_Z. unfold byte.wrap.
  rewrite Z.mod_small by (change (2 ^ 8) with 256; lia). reflexivity.
Qed.

(** ** Reading one record *)

Section ReadFacts.
Variable native : byte_order.

Lemma read_B_run line f :
  read_B line f
  = (unpack_B (firstn 1 (unread f)), after_read line fmt_B f).
Proof. reflexivity. Qed.

Lemma read_BBBB_run line f :
  read_BBBB line f
  = (unpack_BBBB (firstn 4 (unread f)), after_read line fmt_BBBB f).
Proof. reflexivity. Qed.

Lemma read_i_run line f :
  read_i native line f
  = (unpack_i native (firstn 4 (unread f)), after_read line fmt_i f).
Proof. reflexivity. Qed.

Lemma read_ii_run line f :
  read_ii native line f
  = (unpack_ii native (firstn 8 (unread f)), after_read line fmt_ii f).
Proof. reflexivity. Qed.

Lemma read_f_run line f :
  read_f native line f
  = (unpack_f native (firstn 4 (unread f)), after_read line fmt_f f).
Proof. reflexivity. Qed.
End ReadFacts.

Lemma unpack_BBBB_signature data :
  unpack_BBBB data = Ok signature -> data = signature_bytes.
Proof.
  unfold unpack_BBBB. destruct (length data =? 4)%nat; [|discriminate].
  intros H. injection H as H. unfold signature_bytes. rewrite <- H.
  rewrite map_map. rewrite <- (map_id data) at 1.
  apply map_ext. intros b. symmetry. apply byte.of_Z_unsigned.
Qed.

(** ** Signature rejection *)

(** C3.  A file whose first four bytes are not the signature 77, 65, 80, 0
    makes [load_map] raise, and the only read it has made by then is the
    four-byte signature read of line 60: neither the seed nor any other
    field is read and no map is returned.  The exception is
    ValueError("Invalid file format") whenever the file has four bytes to
    compare (struct.error when it is shorter than the signature). *)
Theorem load_map_rejects_bad_signature
    (native : byte_order) (OreType_values : list Z) (content : list byte) :
  firstn 4 content <> signature_bytes ->
  load_map native OreType_values (open_rb content)
  = (Raise (if (4 <=? length content)%nat
            then ValueError "Invalid file format" else StructError),
     after_read 60 fmt_BBBB (open_rb content)).
Proof.
  intros Hsig. unfold load_map.
  destruct (unpack_BBBB (firstn 4 content)) as [file_signature|e] eqn:Hun.
  - rewrite (bind_Ok _ _ _ file_signature (after_read 60 fmt_BBBB (open_rb content)))
      by (rewrite read_BBBB_run; cbn [open_rb unread]; rewrite Hun; reflexivity).
    assert (Hlen : (4 <=? length content)%nat = true).
    { unfold unpack_BBBB in Hun.
      destruct (length (firstn 4 content) =? 4)%nat eqn:E; [|discriminate].
      apply Nat.eqb_eq in E. rewrite length_firstn in E.
      apply Nat.leb_le. lia. }
    rewrite Hlen. unfold list_ne.
    destruct (list_eq_dec Z.eq_dec file_signature signature) as [Heq|Hne].
    + subst file_signature. apply unpack_BBBB_signature in Hun. contradiction.
    + reflexivity.
  - rewrite (bind_Raise _ _ _ e (after_read 60 fmt_BBBB (open_rb content)))
      by (rewrite read_BBBB_run; cbn [open_rb unread]; rewrite Hun; reflexivity).
    unfold unpack_BBBB in Hun.
    destruct (length (firstn 4 content) =? 4)%nat eqn:E; [discriminate|].
    injection Hun as <-.
    apply Nat.eqb_neq in E. rewrite length_firstn in E.
    replace (4 <=? length content)%nat with false
      by (symmetry; apply Nat.leb_gt; lia).
    reflexivity.
Qed.

(** ** Unknown ore-kind tags *)

Section TagSafety.
Variable native : byte_order.
Variable OreType_values : list Z.


Lemma tag_safe_ret {A} (a : A) : tag_safe OreType_values (ret a).
Proof. intros f Hf. left. exact Hf. Qed.

Lemma tag_safe_lift {A} (r : result A) : tag_safe OreType_values (lift r).
Proof. intros f Hf. left. exact Hf. Qed.

Lemma tag_safe_raise {A} e : tag_safe OreType_values (@raise infile A e).
Proof. intros f Hf. left. exact Hf. Qed.

Lemma tag_safe_bind {A B} (m : M infile A) (k : A -> M infile B) :
  tag_safe OreType_values m -> (forall a, tag_safe OreType_values (k a)) -> tag_safe OreType_values (bind m k).
Proof.
  intros Hm Hk f Hf. unfold bind.
  specialize (Hm f Hf). destruct (m f) as [[a|e] f1]; cbn [fst snd] in *.
  - destruct Hm as [Hm|Hm]; [|discriminate Hm]. apply Hk, Hm.
  - destruct Hm as [Hm|Hm]; [left; exact Hm | right; congruence].
Qed.

Lemma tag_safe_for_in {A T} (xs : list A) (body : A -> T -> M infile T) :
  (forall x acc, tag_safe OreType_values (body x acc)) ->
  forall acc, tag_safe OreType_values (for_in xs body acc).
Proof.
  intros Hbody. induction xs as [|x xs IH]; intros acc; cbn [for_in].
  - apply tag_safe_ret.
  - apply tag_safe_bind; [apply Hbody | exact IH].
Qed.

Lemma tags_ok_after_read line fmt f :
  fmt <> fmt_B -> tags_ok OreType_values f ->
  tags_ok OreType_values (after_read line fmt f).
Proof.
  intros Hfmt Hf. unfold tags_ok, after_read. cbn [reads].
  apply Forall_app. split; [exact Hf|].
  constructor; [|constructor]. intros v. unfold tag_of. cbn [rd_fmt].
  destruct fmt; try discriminate. congruence.
Qed.

Lemma tag_safe_read_BBBB line : tag_safe OreType_values (read_BBBB line).
Proof.
  intros f Hf. left. rewrite read_BBBB_run. cbn [snd].
  apply tags_ok_after_read; [discriminate | exact Hf].
Qed.

Lemma tag_safe_read_i line : tag_safe OreType_values (read_i native line).
Proof.
  intros f Hf. left. rewrite read_i_run. cbn [snd].
  apply tags_ok_after_read; [discriminate | exact Hf].
Qed.

Lemma tag_safe_read_ii line : tag_safe OreType_values (read_ii native line).
Proof.
  intros f Hf. left. rewrite read_ii_run. cbn [snd].
  apply tags_ok_after_read; [discriminate | exact Hf].
Qed.

Lemma tag_safe_read_f line : tag_safe OreType_values (read_f native line).
Proof.
  intros f Hf. left. rewrite read_f_run. cbn [snd].
  apply tags_ok_after_read; [discriminate | exact Hf].
Qed.

(** The tag read itself: an unknown tag is answered by the ValueError
    of [OreType(_)]. *)
Lemma tag_safe_read_OreType line :
  tag_safe OreType_values (read_OreType OreType_values line).
Proof.
  intros f Hf. unfold read_OreType, bind. rewrite read_B_run.
  destruct (unpack_B (firstn 1 (unread f))) as [tag|e] eqn:Hun;
    cbn [fst snd lift].
  - unfold OreType.call.
    destruct (existsb (Z.eqb tag) OreType_values) eqn:Hrec;
      cbn [fst snd]; [left | right; reflexivity].
    unfold tags_ok, after_read. cbn [reads].
    apply Forall_app. split; [exact Hf|].
    constructor; [|constructor]. intros v. unfold tag_of.
    cbn [rd_fmt rd_data rd_line calcsize].
    unfold unpack_B in Hun.
    destruct (firstn 1 (unread f)) as [|b [|b' data]]; try discriminate.
    injection Hun as <-.
    destruct (line =? 73)%nat; [|discriminate].
    intros Hv. injection Hv as <-. exact Hrec.
  - left. unfold tags_ok, after_read. cbn [reads].
    apply Forall_app. split; [exact Hf|].
    constructor; [|constructor]. intros v. unfold tag_of.
    cbn [rd_fmt rd_data rd_line calcsize].
    unfold unpack_B in Hun.
    destruct (firstn 1 (unread f)) as [|b [|b' data]]; discriminate.
Qed.

Ltac tag_safe_step :=
  match goal with
  | |- tag_safe OreType_values (bind _ _) => apply tag_safe_bind; [|intros ?]
  | |- tag_safe OreType_values (for_in _ _ _) => apply tag_safe_for_in; intros ? ?
  | |- tag_safe OreType_values (ret _) => apply tag_safe_ret
  | |- tag_safe OreType_values (lift _) => apply tag_safe_lift
  | |- tag_safe OreType_values (raise _) => apply tag_safe_raise
  | |- tag_safe OreType_values (read_i _ _) => apply tag_safe_read_i
  | |- tag_safe OreType_values (read_ii _ _) => apply tag_safe_read_ii
  | |- tag_safe OreType_values (read_f _ _) => apply tag_safe_read_f
  | |- tag_safe OreType_values (read_BBBB _) => apply tag_safe_read_BBBB
  | |- tag_safe OreType_values (read_OreType _ _) => apply tag_safe_read_OreType
  | |- tag_safe OreType_values (match ?p with (_, _) => _ end) => destruct p
  | |- tag_safe OreType_values (if ?b then _ else _) => destruct b
  end.

Lemma tag_safe_load_points line n : tag_safe OreType_values (load_points native line n).
Proof. unfold load_points. repeat tag_safe_step. Qed.

Lemma tag_safe_load_ores map :
  tag_safe OreType_values (load_ores native OreType_values map).
Proof.
  unfold load_ores. repeat (tag_safe_step || apply tag_safe_load_points).
Qed.

Lemma tag_safe_load_structures map : tag_safe OreType_values (load_structures native map).
Proof.
  unfold load_structures.
  repeat (tag_safe_step || apply tag_safe_load_points).
Qed.

Lemma tag_safe_load_buildings map : tag_safe OreType_values (load_buildings native map).
Proof.
  unfold load_buildings.
  repeat (tag_safe_step || apply tag_safe_load_points).
Qed.

Lemma tag_safe_load_noise map : tag_safe OreType_values (load_noise native map).
Proof. unfold load_noise, load_chunk. repeat tag_safe_step. Qed.

Lemma tag_safe_load_map : tag_safe OreType_values (load_map native OreType_values).
Proof.
  unfold load_map.
  repeat (tag_safe_step
          || apply tag_safe_load_ores || apply tag_safe_load_structures
          || apply tag_safe_load_buildings || apply tag_safe_load_noise).
Qed.

(** C4.  Whenever [load_map] meets, where it expects an ore-kind tag
    (the one-byte read of line 73, reached only past the signature
    check), a byte that is not the value of a member of the enumeration,
    it raises the ValueError of [OreType(_)]: it returns no map, and no
    default kind stands in for the unknown tag. *)
Theorem load_map_rejects_unknown_tag (content : list byte) :
  unknown_tag_read OreType_values
    (snd (load_map native OreType_values (open_rb content))) ->
  fst (load_map native OreType_values (open_rb content))
  = Raise not_an_OreType.
Proof.
  intros (e & v & Hin & Htag & Hrec).
  destruct (tag_safe_load_map (open_rb content)) as [Hok|Hraise].
  - constructor.
  - unfold tags_ok in Hok. rewrite Forall_forall in Hok.
    specialize (Hok e Hin v Htag). congruence.
  - exact Hraise.
Qed.
End TagSafety.

(** ** What [save_map] writes *)


Lemma writes_prefix_ret {A} (a : A) : writes_prefix (ret a) [].
Proof.
  intros f. exists [], []. cbn. rewrite app_nil_r. repeat split; reflexivity.
Qed.

Lemma writes_prefix_seq {A B} (m : M outfile A) (k : A -> M outfile B) L1 L2 :
  writes_prefix m L1 -> (forall a, writes_prefix (k a) L2) ->
  writes_prefix (bind m k) (L1 ++ L2).
Proof.
  intros Hm Hk f. unfold bind.
  destruct (Hm f) as (done1 & later1 & HL1 & Hf1 & Hp1 & Hok1).
  destruct (m f) as [[a|e] f1]; cbn [fst snd is_ok] in *.
  - specialize (Hok1 eq_refl). subst later1. rewrite app_nil_r in HL1.
    subst done1 f1.
    destruct (Hk a (f ++ L1)) as (done2 & later2 & HL2 & Hf2 & Hp2 & Hok2).
    exists (L1 ++ done2), later2. repeat split.
    + rewrite HL2. apply app_assoc.
    + rewrite Hf2. symmetry. apply app_assoc.
    + rewrite forallb_app, Hp1, Hp2. reflexivity.
    + exact Hok2.
  - exists done1, (later1 ++ L2). repeat split.
    + rewrite HL1. symmetry. apply app_assoc.
    + exact Hf1.
    + exact Hp1.
    + discriminate.
Qed.

Lemma writes_prefix_when_ok {A B} (r : result A) (k : A -> M outfile B) L :
  (forall a, r = Ok a -> writes_prefix (k a) (L a)) ->
  writes_prefix (bind (lift r) k) (when_ok r L).
Proof.
  intros Hk f. unfold bind, lift. destruct r as [a|e]; cbn [when_ok].
  - apply Hk. reflexivity.
  - exists [], []. cbn. rewrite app_nil_r. repeat split; discriminate.
Qed.

Lemma writes_prefix_for_each {A} (xs : list A) (body : A -> M outfile unit) g :
  (forall x, writes_prefix (body x) (g x)) ->
  writes_prefix (for_each xs body) (flat_map g xs).
Proof.
  intros Hbody. unfold for_each.
  induction xs as [|x xs IH]; cbn [for_in flat_map].
  - apply writes_prefix_ret.
  - apply writes_prefix_seq; [apply Hbody | intros []; exact IH].
Qed.

Lemma writes_prefix_pack (r : result field) fld :
  r = (if packable fld then Ok fld else Raise StructError) ->
  writes_prefix (packed <- lift r ;; f_write packed) [fld].
Proof.
  intros -> f. unfold bind, lift, f_write.
  destruct (packable fld) eqn:Hp; cbn [fst snd is_ok].
  - exists [fld], []. cbn [forallb]. rewrite Hp. repeat split.
  - exists [], [fld]. rewrite app_nil_r. repeat split. discriminate.
Qed.

Lemma writes_prefix_write_B v : writes_prefix (write_B v) [field_B v].
Proof. apply writes_prefix_pack. reflexivity. Qed.

Lemma writes_prefix_write_i v : writes_prefix (write_i v) [field_i v].
Proof. apply writes_prefix_pack. reflexivity. Qed.

Lemma writes_prefix_write_ii a b : writes_prefix (write_ii a b) [field_ii a b].
Proof. apply writes_prefix_pack. reflexivity. Qed.

Lemma writes_prefix_write_f v : writes_prefix (write_f v) (sample_layout v).
Proof.
  unfold write_f, sample_layout.
  apply writes_prefix_when_ok. intros packed Hv f.
  exists [packed], []. unfold f_write. cbn [fst snd is_ok forallb].
  destruct v; [|discriminate]. injection Hv as <-. repeat split.
Qed.

Lemma writes_prefix_write_points points :
  writes_prefix (write_points points) (points_layout points).
Proof.
  apply writes_prefix_for_each. intros point. apply writes_prefix_write_ii.
Qed.

Section SaveLayout.
Variable CHUNK_SIZE : Z.
Variable Point_getitem : Point.t -> Z -> result Z.

Ltac writes_step :=
  match goal with
  | |- writes_prefix (bind (lift _) _) (when_ok _ _) =>
      apply writes_prefix_when_ok; intros ? ?
  | |- writes_prefix (bind _ _) (_ ++ _) =>
      apply writes_prefix_seq; [|intros ?]
  | |- writes_prefix (for_each _ _) (flat_map _ _) =>
      apply writes_prefix_for_each; intros ?
  | |- writes_prefix (write_B _) _ => apply writes_prefix_write_B
  | |- writes_prefix (write_i _) _ => apply writes_prefix_write_i
  | |- writes_prefix (write_ii _ _) _ => apply writes_prefix_write_ii
  | |- writes_prefix (write_f _) _ => apply writes_prefix_write_f
  | |- writes_prefix (write_points _) _ => apply writes_prefix_write_points
  | |- writes_prefix (match ?p with (_, _) => _ end) _ => destruct p
  end.

Lemma writes_prefix_save_ores map :
  writes_prefix (save_ores map) (ores_layout map).
Proof.
  unfold save_ores, ores_layout, ore_chunk_layout, ore_layout.
  repeat writes_step.
Qed.

Lemma writes_prefix_save_structures map :
  writes_prefix (save_structures map) (structures_layout map).
Proof.
  unfold save_structures, structures_layout, structure_chunk_layout,
    structure_layout.
  repeat writes_step.
Qed.

Lemma writes_prefix_save_buildings map :
  writes_prefix (save_buildings map) (buildings_layout map).
Proof.
  unfold save_buildings, buildings_layout, building_layout.
  repeat writes_step.
Qed.

Lemma writes_prefix_save_noise map :
  writes_prefix (save_noise CHUNK_SIZE Point_getitem map)
    (noise_layout CHUNK_SIZE Point_getitem map).
Proof.
  unfold save_noise, noise_layout, noise_chunk_layout, row_layout.
  repeat writes_step.
Qed.

Lemma writes_prefix_save_map map :
  writes_prefix (save_map CHUNK_SIZE Point_getitem map)
    (layout CHUNK_SIZE Point_getitem map).
Proof.
  unfold save_map, layout.
  repeat (writes_step
          || apply writes_prefix_save_ores
          || apply writes_prefix_save_structures
          || apply writes_prefix_save_buildings
          || apply writes_prefix_save_noise).
Qed.
End SaveLayout.




(** ** What [load_map] returns *)


Lemma returns_any {S A} (m : M S A) : returns m (fun _ => True).
Proof. intros s a s' _. exact I. Qed.

Lemma returns_ret {S A} (a : A) (Q : A -> Prop) : Q a -> returns (@ret S A a) Q.
Proof. intros HQ s a' s' H. apply ret_Ok_inv in H. destruct H as [-> _]. exact HQ. Qed.

Lemma returns_lift {S A} (r : result A) (Q : A -> Prop) :
  (forall a, r = Ok a -> Q a) -> returns (@lift S A r) Q.
Proof. intros HQ s a s' H. apply lift_Ok_inv in H. apply HQ, H. Qed.

Lemma returns_bind {S A B} (m : M S A) (k : A -> M S B) Q1 (Q : B -> Prop) :
  returns m Q1 -> (forall a, Q1 a -> returns (k a) Q) -> returns (bind m k) Q.
Proof.
  intros Hm Hk s b s' H. apply bind_Ok_inv in H.
  destruct H as (a & s1 & H1 & H2). eapply Hk; [eapply Hm, H1 | exact H2].
Qed.

Lemma returns_for_in {S A T} (xs : list A) (body : A -> T -> M S T)
    (Q : T -> Prop) :
  (forall x acc, Q acc -> returns (body x acc) Q) ->
  forall acc, Q acc -> returns (for_in xs body acc) Q.
Proof.
  intros Hbody acc HQ s acc' s' H.
  apply (for_in_Ok_inv (fun a _ => Q a) body) with (xs := xs) (acc := acc)
    (s := s) (s' := s'); [|exact HQ|exact H].
  intros x a1 s1 a2 s2 Ha1 Hrun. eapply Hbody; eassumption.
Qed.

(** *** The journal *)


Section Journal.
Variable native : byte_order.
Variable P : nat -> bool.

Lemma reads_at_ret {A} (a : A) : reads_at P (ret a).
Proof. intros f. exists []. cbn. rewrite app_nil_r. split; reflexivity. Qed.

Lemma reads_at_lift {A} (r : result A) : reads_at P (lift r).
Proof. intros f. exists []. cbn. rewrite app_nil_r. split; reflexivity. Qed.

Lemma reads_at_raise {A} e : reads_at P (@raise infile A e).
Proof. intros f. exists []. cbn. rewrite app_nil_r. split; reflexivity. Qed.

Lemma reads_at_bind {A B} (m : M infile A) (k : A -> M infile B) :
  reads_at P m -> (forall a, reads_at P (k a)) -> reads_at P (bind m k).
Proof.
  intros Hm Hk f. unfold bind.
  destruct (Hm f) as (new1 & Hr1 & HP1).
  destruct (m f) as [[a|e] f1]; cbn [snd] in *.
  - destruct (Hk a f1) as (new2 & Hr2 & HP2).
    exists (new1 ++ new2). split.
    + rewrite Hr2, Hr1. symmetry. apply app_assoc.
    + rewrite forallb_app, HP1, HP2. reflexivity.
  - exists new1. split; assumption.
Qed.

Lemma reads_at_for_in {A T} (xs : list A) (body : A -> T -> M infile T) :
  (forall x acc, reads_at P (body x acc)) ->
  forall acc, reads_at P (for_in xs body acc).
Proof.
  intros Hbody. induction xs as [|x xs IH]; intros acc; cbn [for_in].
  - apply reads_at_ret.
  - apply reads_at_bind; [apply Hbody | exact IH].
Qed.

Ltac one_read run :=
  intros HP f; rewrite run; cbn [snd after_read reads];
  eexists; split; [reflexivity|]; cbn [forallb rd_line]; rewrite HP;
  reflexivity.

Lemma reads_at_read_BBBB line : P line = true -> reads_at P (read_BBBB line).
Proof. one_read read_BBBB_run. Qed.

Lemma reads_at_read_B line : P line = true -> reads_at P (read_B line).
Proof. one_read read_B_run. Qed.

Lemma reads_at_read_i line : P line = true -> reads_at P (read_i native line).
Proof. one_read read_i_run. Qed.

Lemma reads_at_read_ii line :
  P line = true -> reads_at P (read_ii native line).
Proof. one_read read_ii_run. Qed.

Lemma reads_at_read_f line : P line = true -> reads_at P (read_f native line).
Proof. one_read read_f_run. Qed.
End Journal.

Ltac reads_at_step :=
  match goal with
  | |- reads_at _ (bind _ _) => apply reads_at_bind; [|intros ?]
  | |- reads_at _ (for_in _ _ _) => apply reads_at_for_in; intros ? ?
  | |- reads_at _ (ret _) => apply reads_at_ret
  | |- reads_at _ (lift _) => apply reads_at_lift
  | |- reads_at _ (raise _) => apply reads_at_raise
  | |- reads_at _ (read_i _ _) => apply reads_at_read_i; reflexivity
  | |- reads_at _ (read_ii _ _) => apply reads_at_read_ii; reflexivity
  | |- reads_at _ (read_f _ _) => apply reads_at_read_f; reflexivity
  | |- reads_at _ (read_B _) => apply reads_at_read_B; reflexivity
  | |- reads_at _ (read_BBBB _) => apply reads_at_read_BBBB; reflexivity
  | |- reads_at _ (match ?p with (_, _) => _ end) => destruct p
  | |- reads_at _ (if ?b then _ else _) => destruct b
  end.


Section JournalOfLoad.
Variable native : byte_order.
Variable OreType_values : list Z.

Lemma reads_at_load_points line n :
  not_line_108 line = true ->
  reads_at not_line_108 (load_points native line n).
Proof.
  intros Hl. unfold load_points.
  repeat (reads_at_step || (apply reads_at_read_ii; exact Hl)).
Qed.

Lemma reads_at_load_ores map :
  reads_at not_line_108 (load_ores native OreType_values map).
Proof.
  unfold load_ores, read_OreType.
  repeat (reads_at_step || (apply reads_at_load_points; reflexivity)).
Qed.

Lemma reads_at_load_structures map :
  reads_at not_line_108 (load_structures native map).
Proof.
  unfold load_structures.
  repeat (reads_at_step || (apply reads_at_load_points; reflexivity)).
Qed.

Lemma reads_at_load_buildings map :
  reads_at not_line_108 (load_buildings native map).
Proof.
  unfold load_buildings.
  repeat (reads_at_step || (apply reads_at_load_points; reflexivity)).
Qed.

Lemma reads_at_load_chunk chunk_size :
  reads_at not_line_108 (load_chunk native chunk_size).
Proof. unfold load_chunk. repeat reads_at_step. Qed.
End JournalOfLoad.

Lemma reads_at_run {A} P (m : M infile A) f r f' :
  reads_at P m -> m f = (r, f') ->
  exists new, reads f' = reads f ++ new
              /\ forallb (fun e => P (rd_line e)) new = true.
Proof. intros Hm Hrun. specialize (Hm f). rewrite Hrun in Hm. exact Hm. Qed.

(** *** Lists and dictionaries updated in place *)

Lemma list_setitem_Ok {A} (l : list A) i v l' :
  list_setitem l i v = Ok l' ->
  length l' = length l
  /\ forall P : A -> Prop, Forall P l -> P v -> Forall P l'.
Proof.
  revert i l'. induction l as [|h t IH]; intros i l' H.
  - destruct i; discriminate H.
  - destruct i as [|i]; cbn [list_setitem] in H.
    + injection H as <-. split; [reflexivity|].
      intros P Hl Hv. inversion Hl; subst. constructor; assumption.
    + destruct (list_setitem t i v) as [t'|e] eqn:Ht; [|discriminate H].
      injection H as <-. destruct (IH _ _ Ht) as [Hlen HP].
      split; [cbn [length]; rewrite Hlen; reflexivity|].
      intros P Hl Hv. inversion Hl; subst. constructor; [assumption|].
      apply HP; assumption.
Qed.

Lemma list_getitem_Ok {A} (l : list A) i a :
  list_getitem l i = Ok a -> In a l.
Proof.
  unfold list_getitem. destruct (nth_error l i) eqn:E; [|discriminate].
  intros H. injection H as <-. eapply nth_error_In, E.
Qed.

Lemma dict_set_Forall {K V} (eqb : K -> K -> bool) (QK : K -> Prop)
    (QV : V -> Prop) (d : dict K V) k v :
  Forall (fun entry => QK (fst entry) /\ QV (snd entry)) d ->
  QK k -> QV v ->
  Forall (fun entry => QK (fst entry) /\ QV (snd entry)) (dict_set eqb d k v).
Proof.
  intros Hd Hk Hv. induction d as [|[k' v'] d IH]; cbn [dict_set].
  - constructor; [split; assumption | constructor].
  - inversion Hd as [|? ? [Hk' Hv'] Hd']; subst. cbn [fst snd] in *.
    destruct (eqb k' k).
    + constructor; [split; assumption | assumption].
    + constructor; [split; assumption | apply IH, Hd'].
Qed.

(** *** The shape of a chunk read by [load_map] *)


Lemma chunk_shape_zero_chunk chunk_size :
  chunk_shape (Z.to_nat chunk_size) (zero_chunk chunk_size chunk_size).
Proof.
  unfold chunk_shape, zero_chunk, range. split.
  - rewrite length_map, length_seq. reflexivity.
  - apply Forall_map, Forall_forall. intros i _. split.
    + apply repeat_length.
    + apply forallb_forall. intros o Ho. apply repeat_spec in Ho. subst o.
      reflexivity.
Qed.

Lemma chunk_shape_setitem2 n chunk i j v chunk' :
  setitem2 chunk i j v = Ok chunk' ->
  chunk_shape n chunk -> is_sample v = true -> chunk_shape n chunk'.
Proof.
  unfold setitem2. intros H [Hlen Hrows] Hv.
  destruct (list_getitem chunk i) as [row|e] eqn:Hrow; [|discriminate H].
  destruct (list_setitem row j v) as [row'|e] eqn:Hrow'; [|discriminate H].
  apply list_getitem_Ok in Hrow.
  rewrite Forall_forall in Hrows. destruct (Hrows row Hrow) as [Hn Hs].
  destruct (list_setitem_Ok _ _ _ _ Hrow') as [Hlen' HP'].
  destruct (list_setitem_Ok _ _ _ _ H) as [Hlen'' HP''].
  split; [congruence|].
  apply HP''.
  - apply Forall_forall. exact Hrows.
  - split; [congruence|].
    apply forallb_forall. apply Forall_forall.
    apply HP'; [|exact Hv]. apply Forall_forall. apply forallb_forall. exact Hs.
Qed.

Lemma chunk_shape_square_grid chunk_size chunk :
  chunk_shape (Z.to_nat chunk_size) chunk ->
  square_grid (Z.max 0 chunk_size) (PyList (List.map PyList chunk)) = true.
Proof.
  intros [Hlen Hrows]. cbn [square_grid]. apply andb_true_intro. split.
  - unfold len. rewrite length_map, Hlen. apply Z.eqb_eq. lia.
  - apply forallb_forall. intros o Ho. apply in_map_iff in Ho.
    destruct Ho as (row & <- & Hin).
    rewrite Forall_forall in Hrows. destruct (Hrows row Hin) as [Hn Hs].
    cbn [is_row]. apply andb_true_intro. split; [|exact Hs].
    unfold len. rewrite Hn. apply Z.eqb_eq. lia.
Qed.

Section NoiseChunks.
Variable native : byte_order.
Variable OreType_values : list Z.

Lemma returns_read_f line :
  returns (read_f native line) (fun v => is_sample v = true).
Proof.
  intros f v f' H. rewrite read_f_run in H.
  assert (Hv : unpack_f native (firstn 4 (unread f)) = Ok v)
    by congruence.
  unfold unpack_f in Hv.
  destruct (length (firstn 4 (unread f)) =? 4)%nat; [|discriminate Hv].
  injection Hv as <-. reflexivity.
Qed.

Lemma returns_load_chunk chunk_size :
  returns (load_chunk native chunk_size)
          (chunk_shape (Z.to_nat chunk_size)).
Proof.
  unfold load_chunk.
  apply returns_for_in; [|apply chunk_shape_zero_chunk].
  intros i chunk Hchunk.
  apply returns_for_in; [|exact Hchunk].
  intros j chunk1 Hchunk1.
  eapply returns_bind; [apply returns_read_f|].
  intros v Hv. apply returns_lift. intros chunk2 Hset.
  eapply chunk_shape_setitem2; eassumption.
Qed.


Lemma noise_chunks_set_ores map v :
  noise_chunks (Map.set_ores map v) = noise_chunks map.
Proof. reflexivity. Qed.

Lemma noise_chunks_set_structures map v :
  noise_chunks (Map.set_structures map v) = noise_chunks map.
Proof. reflexivity. Qed.

Lemma noise_chunks_set_buildings map v :
  noise_chunks (Map.set_buildings map v) = noise_chunks map.
Proof. reflexivity. Qed.

(** The three sections before the noise leave the noise chunks alone. *)
Lemma returns_load_ores map :
  returns (load_ores native OreType_values map)
          (fun map' => noise_chunks map' = noise_chunks map).
Proof.
  unfold load_ores. eapply returns_bind; [apply returns_any|].
  intros num_ores _. apply returns_for_in; [|reflexivity].
  intros _ acc Hacc.
  eapply returns_bind; [apply returns_any|]. intros [chunk_x chunk_y] _.
  eapply returns_bind; [apply returns_any|]. intros n _.
  eapply returns_bind; [apply returns_any|]. intros ores _.
  apply returns_ret. rewrite noise_chunks_set_ores. exact Hacc.
Qed.

Lemma returns_load_structures map :
  returns (load_structures native map)
          (fun map' => noise_chunks map' = noise_chunks map).
Proof.
  unfold load_structures. eapply returns_bind; [apply returns_any|].
  intros num _. apply returns_for_in; [|reflexivity].
  intros _ acc Hacc.
  eapply returns_bind; [apply returns_any|]. intros [chunk_x chunk_y] _.
  eapply returns_bind; [apply returns_any|]. intros n _.
  eapply returns_bind; [apply returns_any|]. intros structures _.
  apply returns_ret. rewrite noise_chunks_set_structures. exact Hacc.
Qed.

Lemma returns_load_buildings map :
  returns (load_buildings native map)
          (fun map' => noise_chunks map' = noise_chunks map).
Proof.
  unfold load_buildings. eapply returns_bind; [apply returns_any|].
  intros num _. apply returns_for_in; [|reflexivity].
  intros _ acc Hacc.
  eapply returns_bind; [apply returns_any|]. intros [position_x position_y] _.
  eapply returns_bind; [apply returns_any|]. intros n _.
  eapply returns_bind; [apply returns_any|]. intros points _.
  apply returns_ret. rewrite noise_chunks_set_buildings. exact Hacc.
Qed.

(** The loop of lines 110-118, for the [chunk_size] read at line 108. *)
Lemma returns_noise_loop chunk_size num_chunks map :
  noise_entries_ok chunk_size map ->
  returns
    (for_in (range num_chunks) (fun _ map =>
       '(chunk_x, chunk_y) <- read_ii native 111 ;;
       chunk <- load_chunk native chunk_size ;;
       ret (Map.set_chunks map
              (dict_set chunk_key_eqb (Perlin.chunks (Map.perlin map))
                 (KeyPoint (Point.new chunk_x chunk_y))
                 (PyList (List.map PyList chunk))))) map)
    (noise_entries_ok chunk_size).
Proof.
  intros Hmap. apply returns_for_in; [|exact Hmap].
  intros _ acc Hacc.
  eapply returns_bind; [apply returns_any|]. intros [chunk_x chunk_y] _.
  eapply returns_bind; [apply returns_load_chunk|]. intros chunk Hchunk.
  apply returns_ret. unfold noise_entries_ok, noise_chunks.
  cbn [Map.set_chunks Map.perlin Perlin.chunks].
  apply (dict_set_Forall chunk_key_eqb
           (fun k => is_point_key k = true)
           (fun v => square_grid (Z.max 0 chunk_size) v = true)).
  - exact Hacc.
  - reflexivity.
  - apply chunk_shape_square_grid, Hchunk.
Qed.
End NoiseChunks.

Lemma forallb_not_line_108 (new : list read_event) e :
  forallb (fun e => not_line_108 (rd_line e)) new = true ->
  In e new -> rd_line e <> 108%nat.
Proof.
  intros Hall Hin Hline. rewrite forallb_forall in Hall.
  specialize (Hall e Hin). rewrite Hline in Hall. discriminate Hall.
Qed.

Section NoiseSection.
Variable native : byte_order.
Variable OreType_values : list Z.

(** A map returned by [load_map]: the journal holds exactly one read of
    line 108, the [chunk_size] of the file, and every noise chunk of the
    map is keyed by a [Point] and is a square grid of that side (of
    side 0 when the stored [chunk_size] is negative). *)
Lemma load_map_noise_section content map f :
  load_map native OreType_values (open_rb content) = (Ok map, f) ->
  exists data chunk_size,
    In (Read 108 fmt_i data) (reads f)
    /\ (forall e, In e (reads f) -> rd_line e = 108%nat ->
                  e = Read 108 fmt_i data)
    /\ unpack_i native data = Ok chunk_size
    /\ noise_entries_ok chunk_size map.
Proof.
  intros H. unfold load_map in H.
  apply bind_Ok_inv in H. destruct H as (sig & f1 & H1 & H).
  destruct (list_ne sig signature); [discriminate H|].
  apply bind_Ok_inv in H. destruct H as (seed & f2 & H2 & H).
  cbv zeta in H.
  apply bind_Ok_inv in H. destruct H as (m1 & f3 & H3 & H).
  apply bind_Ok_inv in H. destruct H as (m2 & f4 & H4 & H).
  apply bind_Ok_inv in H. destruct H as (m3 & f5 & H5 & H).
  apply bind_Ok_inv in H. destruct H as (m4 & f6 & H6 & H).
  apply ret_Ok_inv in H. destruct H as [Hm Hf]. subst m4 f6.
  unfold load_noise in H6.
  apply bind_Ok_inv in H6. destruct H6 as (chunk_size & g1 & G1 & H6).
  apply bind_Ok_inv in H6. destruct H6 as (num_chunks & g2 & G2 & H6).
  rewrite read_i_run in G1, G2.
  assert (Hcs : unpack_i native (firstn 4 (unread f5)) = Ok chunk_size)
    by congruence.
  assert (Hg1 : g1 = after_read 108 fmt_i f5) by congruence.
  assert (Hg2 : g2 = after_read 109 fmt_i g1) by congruence.
  clear G1 G2.
  (* the journal *)
  destruct (reads_at_run not_line_108 _ _ _ _
              (reads_at_read_BBBB not_line_108 60 eq_refl) H1)
    as (n1 & R1 & P1).
  destruct (reads_at_run not_line_108 _ _ _ _
              (reads_at_read_i native not_line_108 64 eq_refl) H2)
    as (n2 & R2 & P2).
  destruct (reads_at_run not_line_108 _ _ _ _
              (reads_at_load_ores native OreType_values _) H3)
    as (n3 & R3 & P3).
  destruct (reads_at_run not_line_108 _ _ _ _
              (reads_at_load_structures native _) H4) as (n4 & R4 & P4).
  destruct (reads_at_run not_line_108 _ _ _ _
              (reads_at_load_buildings native _) H5) as (n5 & R5 & P5).
  assert (Hloop : exists post,
             reads f = reads g2 ++ post
             /\ forallb (fun e => not_line_108 (rd_line e)) post = true).
  { eapply reads_at_run; [|exact H6].
    apply reads_at_for_in. intros _ acc.
    repeat (reads_at_step || apply reads_at_load_chunk). }
  destruct Hloop as (post & R6 & P6).
  exists (firstn 4 (unread f5)), chunk_size.
  assert (Rf : reads f
               = reads f5 ++ [Read 108 fmt_i (firstn 4 (unread f5))]
                   ++ [Read 109 fmt_i (firstn 4 (unread g1))] ++ post).
  { rewrite R6, Hg2. cbn [after_read reads]. rewrite Hg1 at 1.
    cbn [after_read reads calcsize]. rewrite <- !app_assoc. reflexivity. }
  assert (Pre : forallb (fun e => not_line_108 (rd_line e)) (reads f5)
                = true).
  { rewrite R5, R4, R3, R2, R1. cbn [open_rb reads app].
    rewrite !forallb_app, P1, P2, P3, P4, P5. reflexivity. }
  repeat split.
  - rewrite Rf. apply in_or_app. right. left. reflexivity.
  - intros e Hin Hline. rewrite Rf in Hin.
    apply in_app_or in Hin. destruct Hin as [Hin|[Hin|[Hin|Hin]]].
    + destruct (forallb_not_line_108 _ e Pre Hin Hline).
    + symmetry. exact Hin.
    + subst e. discriminate Hline.
    + destruct (forallb_not_line_108 _ e P6 Hin Hline).
  - exact Hcs.
  - eapply (returns_noise_loop native chunk_size num_chunks m3);
      [|exact H6].
    unfold noise_entries_ok.
    rewrite (returns_load_buildings native _ _ _ _ H5).
    rewrite (returns_load_structures native _ _ _ _ H4).
    rewrite (returns_load_ores native OreType_values _ _ _ _ H3).
    constructor.
Qed.
End NoiseSection.

(** ** Reading back what was written *)

Section Parsing.
Variable native : byte_order.

Lemma file_bytes_app (L1 L2 : list field) :
  file_bytes native (L1 ++ L2) = file_bytes native L1 ++ file_bytes native L2.
Proof. apply flat_map_app. Qed.

Lemma parses_ret {A} (a : A) : parses native (ret a) [] a.
Proof.
  split.
  - intros rest journal. exists journal. reflexivity.
  - intros n journal Hn. cbn in Hn. lia.
Qed.

Lemma parses_lift {A} (r : result A) (a : A) :
  r = Ok a -> parses native (lift r) [] a.
Proof.
  intros ->. split.
  - intros rest journal. exists journal. reflexivity.
  - intros n journal Hn. cbn in Hn. lia.
Qed.

Lemma parses_bind {A B} (m : M infile A) (k : A -> M infile B) L1 L2 a b :
  parses native m L1 a -> parses native (k a) L2 b ->
  parses native (bind m k) (L1 ++ L2) b.
Proof.
  intros [Hm Hm'] [Hk Hk']. split.
  - intros rest journal.
    destruct (Hm (file_bytes native L2 ++ rest) journal) as (j1 & H1).
    destruct (Hk rest j1) as (j2 & H2).
    exists j2. rewrite file_bytes_app, <- app_assoc.
    rewrite (bind_Ok _ _ _ _ _ H1). exact H2.
  - intros n journal Hn. rewrite file_bytes_app in Hn |- *.
    rewrite length_app in Hn. rewrite firstn_app.
    destruct (Nat.lt_ge_cases n (length (file_bytes native L1))) as [Hlt|Hge].
    + replace (n - length (file_bytes native L1))%nat with 0%nat by lia.
      rewrite firstn_0, app_nil_r.
      destruct (Hm' n journal Hlt) as (e & f' & H).
      exists e, f'. apply bind_Raise, H.
    + rewrite firstn_all2 by exact Hge.
      destruct (Hm (firstn (n - length (file_bytes native L1))
                           (file_bytes native L2)) journal) as (j1 & H1).
      rewrite (bind_Ok _ _ _ _ _ H1). apply Hk'. lia.
Qed.

(** A read that finds fewer bytes than its format asks for. *)
Lemma length_short_read (k n : nat) (data : list byte) :
  (n < k)%nat -> length (firstn k (firstn n data)) <> k.
Proof. intros Hn. rewrite !length_firstn. lia. Qed.

Lemma parses_read_i line v :
  in_int32 v = true -> parses native (read_i native line) [field_i v] v.
Proof.
  intros Hv. split.
  - intros rest journal. eexists. rewrite read_i_run.
    unfold after_read.
    cbn [unread reads calcsize file_bytes flat_map field_bytes].
    rewrite app_nil_r.
    rewrite firstn_exact, skipn_exact by apply length_word_bytes.
    rewrite unpack_i_word_bytes by exact Hv. reflexivity.
  - intros n journal Hn. rewrite read_i_run. unfold unpack_i.
    cbn [unread file_bytes flat_map field_bytes] in Hn |- *.
    rewrite app_nil_r, length_word_bytes in Hn.
    apply (length_short_read 4 n (word_bytes native v ++ [])) in Hn.
    apply Nat.eqb_neq in Hn. rewrite Hn. eexists _, _. reflexivity.
Qed.

Lemma parses_read_ii line a b :
  in_int32 a && in_int32 b = true ->
  parses native (read_ii native line) [field_ii a b] (a, b).
Proof.
  intros Hab. apply andb_prop in Hab. destruct Hab as [Ha Hb]. split.
  - intros rest journal. eexists. rewrite read_ii_run.
    unfold after_read.
    cbn [unread reads calcsize file_bytes flat_map field_bytes].
    rewrite app_nil_r.
    rewrite firstn_exact, skipn_exact
      by (rewrite length_app, !length_word_bytes; reflexivity).
    rewrite unpack_ii_word_bytes by assumption. reflexivity.
  - intros n journal Hn. rewrite read_ii_run. unfold unpack_ii.
    cbn [unread file_bytes flat_map field_bytes] in Hn |- *.
    rewrite app_nil_r, length_app, !length_word_bytes in Hn.
    apply (length_short_read 8 n
             ((word_bytes native a ++ word_bytes native b) ++ [])) in Hn.
    apply Nat.eqb_neq in Hn. rewrite Hn. eexists _, _. reflexivity.
Qed.

Lemma parses_read_B line v :
  in_uint8 v = true -> parses native (read_B line) [field_B v] v.
Proof.
  intros Hv. split.
  - intros rest journal. eexists. rewrite read_B_run.
    unfold after_read.
    cbn [unread reads calcsize file_bytes flat_map field_bytes app firstn
         skipn].
    rewrite unpack_B_of_Z by exact Hv. reflexivity.
  - intros n journal Hn. cbn in Hn.
    replace n with 0%nat by lia. eexists _, _. reflexivity.
Qed.

Lemma parses_read_signature line :
  parses native (read_BBBB line) (flat_map (fun b => [field_B b]) signature)
         signature.
Proof.
  split.
  - intros rest journal. eexists. reflexivity.
  - intros n journal Hn. cbn in Hn.
    destruct n as [|[|[|[|n]]]]; try lia; eexists _, _; reflexivity.
Qed.

(** A counted loop over the records of the elements of [xs]. *)
Lemma parses_for_in_seq {X T} (xs : list X) (g : X -> list field)
    (step : T -> X -> T) (body : nat -> T -> M infile T) :
  (forall x i acc, In x xs -> parses native (body i acc) (g x) (step acc x)) ->
  forall start acc,
    parses native (for_in (seq start (length xs)) body acc)
           (flat_map g xs) (fold_left step xs acc).
Proof.
  induction xs as [|x xs IH]; intros Hbody start acc;
    cbn [length seq for_in flat_map fold_left].
  - apply parses_ret.
  - apply parses_bind with (a := step acc x).
    + apply Hbody. left. reflexivity.
    + apply IH. intros x' i acc' Hin. apply Hbody. right. exact Hin.
Qed.

Lemma parses_for_in_range {X T} (xs : list X) (g : X -> list field)
    (step : T -> X -> T) (body : nat -> T -> M infile T) acc :
  (forall x i acc, In x xs -> parses native (body i acc) (g x) (step acc x)) ->
  parses native (for_in (range (len xs)) body acc)
         (flat_map g xs) (fold_left step xs acc).
Proof.
  intros Hbody. unfold range, len. rewrite Nat2Z.id.
  apply parses_for_in_seq. exact Hbody.
Qed.
End Parsing.

(** ** Round trip of the sections before the noise *)

Lemma Point_eqb_eq p q : Point.eqb p q = true <-> p = q.
Proof.
  destruct p as [px py], q as [qx qy]. unfold Point.eqb. cbn [Point.x Point.y].
  rewrite andb_true_iff, !Z.eqb_eq. split.
  - intros [-> ->]. reflexivity.
  - intros H. injection H as -> ->. split; reflexivity.
Qed.

Lemma OreType_eqb_eq a b : OreType.eqb a b = true <-> a = b.
Proof.
  destruct a as [va], b as [vb]. unfold OreType.eqb. cbn [OreType.value].
  rewrite Z.eqb_eq. split; [intros ->; reflexivity | intros H; injection H as ->; reflexivity].
Qed.

Lemma forallb_flat_map {X Y} (p : Y -> bool) (g : X -> list Y) xs :
  forallb p (flat_map g xs) = forallb (fun x => forallb p (g x)) xs.
Proof.
  induction xs as [|x xs IH]; cbn [flat_map forallb]; [reflexivity|].
  rewrite forallb_app, IH. reflexivity.
Qed.

Lemma fold_left_snoc {X} (xs acc : list X) :
  fold_left (fun acc x => acc ++ [x]) xs acc = acc ++ xs.
Proof.
  revert acc. induction xs as [|x xs IH]; intros acc; cbn [fold_left].
  - symmetry. apply app_nil_r.
  - rewrite IH, <- app_assoc. reflexivity.
Qed.

Section DictFacts.
Context {K V : Type} (eqb : K -> K -> bool).
Hypothesis eqb_eq : forall a b, eqb a b = true <-> a = b.

Lemma dict_set_fresh (d : dict K V) k v :
  ~ In k (keys d) -> dict_set eqb d k v = d ++ [(k, v)].
Proof.
  induction d as [|[k' v'] d IH]; cbn [dict_set keys List.map fst In app];
    intros Hfresh; [reflexivity|].
  destruct (eqb k' k) eqn:E.
  - apply eqb_eq in E. exfalso. apply Hfresh. left. exact E.
  - f_equal. apply IH. intros Hin. apply Hfresh. right. exact Hin.
Qed.

Lemma fold_dict_set (entries d : dict K V) :
  NoDup (keys (d ++ entries)) ->
  fold_left (fun d entry => dict_set eqb d (fst entry) (snd entry)) entries d
  = d ++ entries.
Proof.
  revert d. induction entries as [|[k v] entries IH]; intros d Hnd;
    cbn [fold_left fst snd].
  - symmetry. apply app_nil_r.
  - assert (Hfresh : ~ In k (keys d)).
    { unfold keys in *. rewrite map_app in Hnd. cbn [List.map fst] in Hnd.
      apply NoDup_remove_2 in Hnd. intros Hin. apply Hnd.
      apply in_or_app. left. exact Hin. }
    rewrite dict_set_fresh by exact Hfresh.
    rewrite IH; rewrite <- app_assoc; [reflexivity | exact Hnd].
Qed.
End DictFacts.

Section RoundTrip.
Variable native : byte_order.
Variable OreType_values : list Z.

Lemma parses_eq {A} (m : M infile A) L a a' :
  parses native m L a -> a = a' -> parses native m L a'.
Proof. intros H <-. exact H. Qed.

Lemma parses_bind_last {A B} (m : M infile A) (k : A -> M infile B) L a b :
  parses native m L a -> parses native (k a) [] b ->
  parses native (bind m k) L b.
Proof.
  intros Hm Hk. rewrite <- (app_nil_r L). eapply parses_bind; eassumption.
Qed.

(** The packable records of one element of a flattened collection. *)
Lemma packable_element {X} (g : X -> list field) xs x :
  forallb packable (flat_map g xs) = true -> In x xs ->
  forallb packable (g x) = true.
Proof.
  rewrite forallb_flat_map, forallb_forall. intros H Hin. apply H, Hin.
Qed.

Lemma parses_load_points line points :
  forallb packable (points_layout points) = true ->
  parses native (load_points native line (len points))
         (points_layout points) points.
Proof.
  intros Hp. unfold load_points, points_layout in *.
  eapply parses_eq.
  - apply (parses_for_in_range native points
             (fun point => [field_ii (Point.x point) (Point.y point)])
             (fun acc point => acc ++ [point])).
    intros p i acc Hin.
    pose proof (packable_element _ _ _ Hp Hin) as Hpt.
    cbn [forallb packable] in Hpt. rewrite andb_true_r in Hpt.
    eapply parses_bind_last; [apply parses_read_ii; exact Hpt|].
    destruct p as [px py]. apply parses_ret.
  - apply fold_left_snoc.
Qed.

Lemma parses_read_OreType line ore_type :
  in_uint8 (OreType.value ore_type) = true ->
  recognized OreType_values (OreType.value ore_type) = true ->
  parses native (read_OreType OreType_values line)
         [field_B (OreType.value ore_type)] ore_type.
Proof.
  intros Hb Hrec. unfold read_OreType.
  eapply parses_bind_last; [apply parses_read_B; exact Hb|].
  apply parses_lift. unfold OreType.call. unfold recognized in Hrec.
  rewrite Hrec. destruct ore_type; reflexivity.
Qed.

Lemma parses_ore_kinds ores :
  forallb packable (flat_map ore_layout (items ores)) = true ->
  ore_kinds_ok OreType_values ores ->
  parses native
    (for_in (range (len ores)) (fun _ ores =>
       ore_type <- read_OreType OreType_values 73 ;;
       num_points <- read_i native 74 ;;
       points <- load_points native 77 num_points ;;
       ret (dict_set OreType.eqb ores ore_type points)) [])
    (flat_map ore_layout (items ores)) ores.
Proof.
  intros Hp [Hnd Hrec]. unfold items in *.
  eapply parses_eq.
  - apply (parses_for_in_range native ores ore_layout
             (fun d entry => dict_set OreType.eqb d (fst entry) (snd entry))).
    intros [ore_type ore] i acc Hin.
    pose proof (packable_element _ _ _ Hp Hin) as He.
    unfold ore_layout in *. rewrite !forallb_app in He.
    cbn [forallb packable] in He. rewrite !andb_true_r in He.
    apply andb_prop in He. destruct He as [Htag He].
    apply andb_prop in He. destruct He as [Hlen Hpts].
    rewrite Forall_forall in Hrec. specialize (Hrec _ Hin).
    cbn [fst snd] in *.
    eapply parses_bind; [apply parses_read_OreType; assumption|].
    eapply parses_bind; [apply parses_read_i; exact Hlen|].
    eapply parses_bind_last; [apply parses_load_points; exact Hpts|].
    apply parses_ret.
  - apply (fold_dict_set OreType.eqb OreType_eqb_eq ores []). exact Hnd.
Qed.

Lemma fold_set_ores entries map :
  fold_left (fun map entry =>
               Map.set_ores map
                 (dict_set Point.eqb (Map.ores map) (fst entry) (snd entry)))
            entries map
  = Map.set_ores map
      (fold_left (fun d entry => dict_set Point.eqb d (fst entry) (snd entry))
                 entries (Map.ores map)).
Proof.
  revert map. induction entries as [|e entries IH]; intros map;
    cbn [fold_left].
  - destruct map; reflexivity.
  - rewrite IH. reflexivity.
Qed.

Lemma parses_load_ores map0 ores :
  Map.ores map0 = [] ->
  forallb packable
    ([field_i (len ores)] ++ flat_map ore_chunk_layout (items ores)) = true ->
  NoDup (keys ores) ->
  Forall (fun entry => ore_kinds_ok OreType_values (snd entry)) ores ->
  parses native (load_ores native OreType_values map0)
    ([field_i (len ores)] ++ flat_map ore_chunk_layout (items ores))
    (Map.set_ores map0 ores).
Proof.
  intros Hempty Hp Hnd Hkinds. unfold load_ores, items in *.
  rewrite forallb_app in Hp. apply andb_prop in Hp. destruct Hp as [Hn Hp].
  cbn [forallb packable] in Hn. rewrite andb_true_r in Hn.
  eapply parses_bind; [apply parses_read_i; exact Hn|].
  eapply parses_eq.
  - apply (parses_for_in_range native ores ore_chunk_layout
             (fun map entry =>
                Map.set_ores map
                  (dict_set Point.eqb (Map.ores map) (fst entry) (snd entry)))).
    intros [chunk_coords chunk_ores] i acc Hin.
    pose proof (packable_element _ _ _ Hp Hin) as He.
    unfold ore_chunk_layout in *. rewrite !forallb_app in He.
    cbn [forallb packable] in He. rewrite !andb_true_r in He.
    apply andb_prop in He. destruct He as [Hxy He].
    apply andb_prop in He. destruct He as [Hlen Hores].
    rewrite Forall_forall in Hkinds. specialize (Hkinds _ Hin).
    cbn [fst snd] in *.
    eapply parses_bind; [apply parses_read_ii; exact Hxy|].
    eapply parses_bind; [apply parses_read_i; exact Hlen|].
    eapply parses_bind_last; [apply parses_ore_kinds; assumption|].
    destruct chunk_coords as [cx cy]. apply parses_ret.
  - rewrite fold_set_ores, Hempty.
    rewrite (fold_dict_set Point.eqb Point_eqb_eq ores []) by exact Hnd.
    reflexivity.
Qed.

Lemma parses_structures_of_chunk structures :
  forallb packable (flat_map structure_layout structures) = true ->
  parses native
    (for_in (range (len structures)) (fun _ structures =>
       structure_type <- read_i native 88 ;;
       '(position_x, position_y) <- read_ii native 89 ;;
       num_points <- read_i native 90 ;;
       points <- load_points native 93 num_points ;;
       ret (structures ++
              [Structure.new structure_type
                 (Point.new position_x position_y) points])) [])
    (flat_map structure_layout structures) structures.
Proof.
  intros Hp. eapply parses_eq.
  - apply (parses_for_in_range native structures structure_layout
             (fun acc structure => acc ++ [structure])).
    intros structure i acc Hin.
    pose proof (packable_element _ _ _ Hp Hin) as He.
    unfold structure_layout in *. rewrite !forallb_app in He.
    cbn [forallb packable] in He. rewrite !andb_true_r in He.
    apply andb_prop in He. destruct He as [Htype He].
    apply andb_prop in He. destruct He as [Hpos He].
    apply andb_prop in He. destruct He as [Hlen Hpts].
    eapply parses_bind; [apply parses_read_i; exact Htype|].
    eapply parses_bind; [apply parses_read_ii; exact Hpos|].
    eapply parses_bind; [apply parses_read_i; exact Hlen|].
    eapply parses_bind_last; [apply parses_load_points; exact Hpts|].
    destruct structure as [st [px py] pts]. apply parses_ret.
  - apply fold_left_snoc.
Qed.

Lemma fold_set_structures entries map :
  fold_left (fun map entry =>
               Map.set_structures map
                 (dict_set Point.eqb (Map.structures map)
                    (fst entry) (snd entry)))
            entries map
  = Map.set_structures map
      (fold_left (fun d entry => dict_set Point.eqb d (fst entry) (snd entry))
                 entries (Map.structures map)).
Proof.
  revert map. induction entries as [|e entries IH]; intros map;
    cbn [fold_left].
  - destruct map; reflexivity.
  - rewrite IH. reflexivity.
Qed.

Lemma parses_load_structures map0 structures :
  Map.structures map0 = [] ->
  forallb packable
    ([field_i (len structures)]
       ++ flat_map structure_chunk_layout (items structures)) = true ->
  NoDup (keys structures) ->
  parses native (load_structures native map0)
    ([field_i (len structures)]
       ++ flat_map structure_chunk_layout (items structures))
    (Map.set_structures map0 structures).
Proof.
  intros Hempty Hp Hnd. unfold load_structures, items in *.
  rewrite forallb_app in Hp. apply andb_prop in Hp. destruct Hp as [Hn Hp].
  cbn [forallb packable] in Hn. rewrite andb_true_r in Hn.
  eapply parses_bind; [apply parses_read_i; exact Hn|].
  eapply parses_eq.
  - apply (parses_for_in_range native structures structure_chunk_layout
             (fun map entry =>
                Map.set_structures map
                  (dict_set Point.eqb (Map.structures map)
                     (fst entry) (snd entry)))).
    intros [chunk_coords chunk_structures] i acc Hin.
    pose proof (packable_element _ _ _ Hp Hin) as He.
    unfold structure_chunk_layout in *. rewrite !forallb_app in He.
    cbn [forallb packable] in He. rewrite !andb_true_r in He.
    apply andb_prop in He. destruct He as [Hxy He].
    apply andb_prop in He. destruct He as [Hlen Hstr].
    cbn [fst snd] in *.
    eapply parses_bind; [apply parses_read_ii; exact Hxy|].
    eapply parses_bind; [apply parses_read_i; exact Hlen|].
    eapply parses_bind_last;
      [apply parses_structures_of_chunk; exact Hstr|].
    destruct chunk_coords as [cx cy]. apply parses_ret.
  - rewrite fold_set_structures, Hempty.
    rewrite (fold_dict_set Point.eqb Point_eqb_eq structures []) by exact Hnd.
    reflexivity.
Qed.

Lemma fold_set_buildings buildings map :
  fold_left (fun map building =>
               Map.set_buildings map (Map.buildings map ++ [building]))
            buildings map
  = Map.set_buildings map (Map.buildings map ++ buildings).
Proof.
  revert map. induction buildings as [|b buildings IH]; intros map;
    cbn [fold_left].
  - rewrite app_nil_r. destruct map; reflexivity.
  - rewrite IH. cbn [Map.set_buildings Map.buildings Map.perlin Map.ores
                       Map.structures].
    rewrite <- app_assoc. reflexivity.
Qed.

Lemma parses_load_buildings map0 buildings :
  Map.buildings map0 = [] ->
  forallb packable
    ([field_i (len buildings)] ++ flat_map building_layout buildings)
  = true ->
  parses native (load_buildings native map0)
    ([field_i (len buildings)] ++ flat_map building_layout buildings)
    (Map.set_buildings map0 buildings).
Proof.
  intros Hempty Hp. unfold load_buildings.
  rewrite forallb_app in Hp. apply andb_prop in Hp. destruct Hp as [Hn Hp].
  cbn [forallb packable] in Hn. rewrite andb_true_r in Hn.
  eapply parses_bind; [apply parses_read_i; exact Hn|].
  eapply parses_eq.
  - apply (parses_for_in_range native buildings building_layout
             (fun map building =>
                Map.set_buildings map (Map.buildings map ++ [building]))).
    intros building i acc Hin.
    pose proof (packable_element _ _ _ Hp Hin) as He.
    unfold building_layout in *. rewrite !forallb_app in He.
    cbn [forallb packable] in He. rewrite !andb_true_r in He.
    apply andb_prop in He. destruct He as [Hpos He].
    apply andb_prop in He. destruct He as [Hlen Hpts].
    eapply parses_bind; [apply parses_read_ii; exact Hpos|].
    eapply parses_bind; [apply parses_read_i; exact Hlen|].
    eapply parses_bind_last; [apply parses_load_points; exact Hpts|].
    destruct building as [[px py] pts]. apply parses_ret.
  - rewrite fold_set_buildings, Hempty. reflexivity.
Qed.

(** The noise section of a map without noise chunks: the chunk size
    and a zero count. *)
Lemma parses_load_noise_empty map0 chunk_size :
  in_int32 chunk_size = true ->
  parses native (load_noise native map0)
         ([field_i chunk_size] ++ [field_i 0]) map0.
Proof.
  intros Hcs. unfold load_noise.
  eapply parses_bind; [apply parses_read_i; exact Hcs|].
  eapply parses_bind_last; [apply parses_read_i; reflexivity|].
  apply parses_ret.
Qed.
End RoundTrip.


Lemma writes_all_seq (m : M outfile unit) (k : unit -> M outfile unit) L1 L2 :
  writes_all m L1 -> writes_all (k tt) L2 -> writes_all (bind m k) (L1 ++ L2).
Proof.
  intros Hm Hk Hp f. rewrite forallb_app in Hp. apply andb_prop in Hp.
  destruct Hp as [Hp1 Hp2].
  rewrite (bind_Ok _ _ _ _ _ (Hm Hp1 f)), (Hk Hp2), app_assoc. reflexivity.
Qed.

Lemma writes_all_for_each {A} (xs : list A) (body : A -> M outfile unit) g :
  (forall x, writes_all (body x) (g x)) ->
  writes_all (for_each xs body) (flat_map g xs).
Proof.
  intros Hbody. unfold for_each.
  induction xs as [|x xs IH]; cbn [for_in flat_map].
  - intros _ f. rewrite app_nil_r. reflexivity.
  - apply writes_all_seq; [apply Hbody | exact IH].
Qed.

Lemma writes_all_write_B v : writes_all (write_B v) [field_B v].
Proof.
  intros Hp f. cbn [forallb packable] in Hp. rewrite andb_true_r in Hp.
  unfold write_B, bind, lift, pack_B. rewrite Hp. reflexivity.
Qed.

Lemma writes_all_write_i v : writes_all (write_i v) [field_i v].
Proof.
  intros Hp f. cbn [forallb packable] in Hp. rewrite andb_true_r in Hp.
  unfold write_i, bind, lift, pack_i. rewrite Hp. reflexivity.
Qed.

Lemma writes_all_write_ii a b : writes_all (write_ii a b) [field_ii a b].
Proof.
  intros Hp f. cbn [forallb packable] in Hp. rewrite andb_true_r in Hp.
  unfold write_ii, bind, lift, pack_ii. rewrite Hp. reflexivity.
Qed.

Lemma writes_all_write_points points :
  writes_all (write_points points) (points_layout points).
Proof.
  apply writes_all_for_each. intros point. apply writes_all_write_ii.
Qed.

Ltac writes_all_step :=
  match goal with
  | |- writes_all (bind _ _) (_ ++ _) => apply writes_all_seq
  | |- writes_all (for_each _ _) (flat_map _ _) =>
      apply writes_all_for_each; intros ?
  | |- writes_all (write_B _) _ => apply writes_all_write_B
  | |- writes_all (write_i _) _ => apply writes_all_write_i
  | |- writes_all (write_ii _ _) _ => apply writes_all_write_ii
  | |- writes_all (write_points _) _ => apply writes_all_write_points
  | |- writes_all (match ?p with (_, _) => _ end) _ => destruct p
  end.

Lemma writes_all_save_ores map : writes_all (save_ores map) (ores_layout map).
Proof.
  unfold save_ores, ores_layout, ore_chunk_layout, ore_layout.
  repeat writes_all_step.
Qed.

Lemma writes_all_save_structures map :
  writes_all (save_structures map) (structures_layout map).
Proof.
  unfold save_structures, structures_layout, structure_chunk_layout,
    structure_layout.
  repeat writes_all_step.
Qed.

Lemma writes_all_save_buildings map :
  writes_all (save_buildings map) (buildings_layout map).
Proof.
  unfold save_buildings, buildings_layout, building_layout.
  repeat writes_all_step.
Qed.

Section SaveThenLoad.
Variable native : byte_order.
Variable CHUNK_SIZE : Z.
Variable OreType_values : list Z.
Variable Point_getitem : Point.t -> Z -> result Z.

Lemma writes_all_save_map map :
  noise_chunks map = [] ->
  writes_all (save_map CHUNK_SIZE Point_getitem map)
             (layout CHUNK_SIZE Point_getitem map).
Proof.
  intros Hnoise. unfold save_map, layout, save_noise, noise_layout.
  unfold noise_chunks in Hnoise. rewrite Hnoise. cbn [items flat_map].
  repeat (match goal with
          | |- writes_all (for_each (items []) _) [] =>
              intros _ f; rewrite app_nil_r; reflexivity
          end
          || writes_all_step
          || apply writes_all_save_ores
          || apply writes_all_save_structures
          || apply writes_all_save_buildings).
Qed.

Lemma parses_load_map map :
  well_formed CHUNK_SIZE Point_getitem OreType_values map ->
  noise_chunks map = [] ->
  parses native (load_map native OreType_values)
         (layout CHUNK_SIZE Point_getitem map) map.
Proof.
  intros (Hp & Hnd_ores & Hkinds & Hnd_str) Hnoise.
  unfold layout, noise_layout in *. unfold noise_chunks in Hnoise.
  rewrite Hnoise in *. cbn [items flat_map len length Z.of_nat] in Hp |- *.
  rewrite !forallb_app in Hp.
  apply andb_prop in Hp. destruct Hp as [_ Hp].
  apply andb_prop in Hp. destruct Hp as [Hseed Hp].
  apply andb_prop in Hp. destruct Hp as [Hores Hp].
  apply andb_prop in Hp. destruct Hp as [Hstr Hp].
  apply andb_prop in Hp. destruct Hp as [Hbld Hp].
  apply andb_prop in Hp. destruct Hp as [Hcs _].
  cbn [forallb packable] in Hseed, Hcs. rewrite andb_true_r in Hseed, Hcs.
  unfold load_map.
  eapply parses_bind; [apply parses_read_signature|].
  change (list_ne signature signature) with false. cbv iota.
  eapply parses_bind; [apply parses_read_i; exact Hseed|].
  cbv zeta.
  eapply parses_bind;
    [apply (parses_load_ores native OreType_values (Map.new _) (Map.ores map));
     [reflexivity | exact Hores | exact Hnd_ores | exact Hkinds]|].
  eapply parses_bind;
    [apply (parses_load_structures native _ (Map.structures map));
     [reflexivity | exact Hstr | exact Hnd_str]|].
  eapply parses_bind;
    [apply (parses_load_buildings native _ (Map.buildings map));
     [reflexivity | exact Hbld]|].
  rewrite app_nil_r.
  eapply parses_bind_last; [apply parses_load_noise_empty; exact Hcs|].
  eapply parses_eq; [apply parses_ret|].
  destruct map as [[seed chunks] ores structures buildings].
  cbn in Hnoise. subst chunks. reflexivity.
Qed.

(** A well-formed map without noise chunks is written in full, and
    reading the file back returns the very same map: same seed, same
    dictionaries with their entries in the same order, same point lists
    and footprints. *)
Theorem save_then_load_without_noise map :
  well_formed CHUNK_SIZE Point_getitem OreType_values map ->
  noise_chunks map = [] ->
  save native CHUNK_SIZE Point_getitem map
  = (Ok tt, file_bytes native (layout CHUNK_SIZE Point_getitem map))
  /\ load native OreType_values
       (file_bytes native (layout CHUNK_SIZE Point_getitem map))
     = Ok map.
Proof.
  intros Hwf Hnoise. split.
  - unfold save.
    rewrite (writes_all_save_map map Hnoise (proj1 Hwf) []). reflexivity.
  - unfold load, open_rb.
    destruct (proj1 (parses_load_map map Hwf Hnoise) [] []) as (journal & H).
    rewrite app_nil_r in H. rewrite H. reflexivity.
Qed.

(** X2.  Cut anywhere before its end, the file of a well-formed map
    without noise chunks makes [load_map] raise. *)
Theorem load_raises_on_truncation_without_noise map n :
  well_formed CHUNK_SIZE Point_getitem OreType_values map ->
  noise_chunks map = [] ->
  (n < length (file_bytes native (layout CHUNK_SIZE Point_getitem map)))%nat ->
  exists e,
    load native OreType_values
         (firstn n (file_bytes native (layout CHUNK_SIZE Point_getitem map)))
    = Raise e.
Proof.
  intros Hwf Hnoise Hn.
  destruct (proj2 (parses_load_map map Hwf Hnoise) n [] Hn) as (e & f' & H).
  exists e. unfold load, open_rb. rewrite H. reflexivity.
Qed.
End SaveThenLoad.

(** ** The empty world *)

(** C6 (as amended).  A map without ore chunks, structure chunks,
    buildings and noise chunks, whose seed fits a 32-bit integer as
    [CHUNK_SIZE] does, is saved as exactly 28 bytes: 4 of signature, 4 of
    seed, 4 + 4 + 4 for the zero counts of ores, structures and
    buildings, 4 for [CHUNK_SIZE] and 4 for the zero count of noise
    chunks.  Reading these bytes back returns the same empty map, with
    the same seed. *)
Theorem empty_world_file
    (native : byte_order) (CHUNK_SIZE : Z) (OreType_values : list Z)
    (Point_getitem : Point.t -> Z -> result Z) (map : Map.t) :
  Map.ores map = [] -> Map.structures map = [] -> Map.buildings map = [] ->
  noise_chunks map = [] ->
  in_int32 (Perlin.seed (Map.perlin map)) = true ->
  in_int32 CHUNK_SIZE = true ->
  exists content,
    save native CHUNK_SIZE Point_getitem map = (Ok tt, content)
    /\ length content = (4 + 4 + (4 + 4 + 4) + 4 + 4)%nat
    /\ load native OreType_values content = Ok map.
Proof.
  intros Hores Hstr Hbld Hnoise Hseed Hcs.
  assert (Hwf : well_formed CHUNK_SIZE Point_getitem OreType_values map).
  { unfold well_formed. rewrite Hores, Hstr. repeat split; try constructor.
    unfold layout, ores_layout, structures_layout, buildings_layout,
      noise_layout.
    unfold noise_chunks in Hnoise. rewrite Hores, Hstr, Hbld, Hnoise.
    cbn. rewrite Hseed, Hcs. reflexivity. }
  destruct (save_then_load_without_noise native CHUNK_SIZE OreType_values
              Point_getitem map Hwf Hnoise) as [Hsave Hload].
  eexists. split; [exact Hsave|]. split; [|exact Hload].
  unfold layout, ores_layout, structures_layout, buildings_layout,
    noise_layout.
  unfold noise_chunks in Hnoise. rewrite Hores, Hstr, Hbld, Hnoise.
  cbn [items flat_map signature app len length Z.of_nat file_bytes].
  rewrite !length_app, !length_field_bytes. reflexivity.
Qed.

(** ** The stored chunk size *)

(** C8 (as amended).  [load_map] takes no chunk size from the program:
    the journal of a load that returns a map holds exactly one read of
    line 108, the [chunk_size] stored at the start of the noise section,
    and every noise chunk of the map returned is a grid of exactly
    [max(chunk_size, 0)] rows of exactly [max(chunk_size, 0)] samples:
    [chunk_size] rows of [chunk_size] samples whenever the stored value is
    not negative, an empty grid otherwise. *)
Theorem load_map_grids_have_stored_side
    (native : byte_order) (OreType_values : list Z)
    (content : list byte) (map : Map.t) (f : infile) :
  load_map native OreType_values (open_rb content) = (Ok map, f) ->
  exists data chunk_size,
    In (Read 108 fmt_i data) (reads f)
    /\ (forall e, In e (reads f) -> rd_line e = 108%nat ->
                  e = Read 108 fmt_i data)
    /\ unpack_i native data = Ok chunk_size
    /\ Forall (fun entry =>
                 square_grid (Z.max 0 chunk_size) (snd entry) = true)
              (noise_chunks map).
Proof.
  intros H.
  destruct (load_map_noise_section native OreType_values content map f H)
    as (data & chunk_size & Hin & Huniq & Hcs & Hentries).
  exists data, chunk_size. repeat split; try assumption.
  eapply Forall_impl; [|exact Hentries]. intros entry [_ Hgrid]. exact Hgrid.
Qed.

(** X4.  Every noise chunk of a map returned by [load_map] is keyed by a
    [Point], never by a pair. *)
Lemma load_map_keys_noise_chunks_by_Point
    (native : byte_order) (OreType_values : list Z)
    (content : list byte) (map : Map.t) (f : infile) :
  load_map native OreType_values (open_rb content) = (Ok map, f) ->
  Forall (fun key => is_point_key key = true) (keys (noise_chunks map)).
Proof.
  intros H.
  destruct (load_map_noise_section native OreType_values content map f H)
    as (data & chunk_size & _ & _ & _ & Hentries).
  unfold keys. apply Forall_map.
  eapply Forall_impl; [|exact Hentries]. intros entry [Hkey _]. exact Hkey.
Qed.

(** ** Saving a grid of noise *)


Lemma raises_lift {S A} e : raises (@lift S A (Raise e)).
Proof. intros s. exists e, s. reflexivity. Qed.

Lemma raises_bind_l {S A B} (m : M S A) (k : A -> M S B) :
  raises m -> raises (bind m k).
Proof.
  intros Hm s. destruct (Hm s) as (e & s' & H). exists e, s'.
  apply bind_Raise, H.
Qed.

Lemma raises_bind_r {S A B} (m : M S A) (k : A -> M S B) :
  (forall a, raises (k a)) -> raises (bind m k).
Proof.
  intros Hk s. unfold bind. destruct (m s) as [[a|e] s1].
  - apply Hk.
  - exists e, s1. reflexivity.
Qed.

Lemma raises_for_each_first {S A} (x : A) xs (body : A -> M S unit) :
  raises (body x) -> raises (for_each (x :: xs) body).
Proof. intros H. unfold for_each. cbn [for_in]. apply raises_bind_l, H. Qed.

(** Lines 53-55 on a square grid: [chunk[0]] is a row, whose items are
    samples and cannot be iterated (or there is no row at all). *)
Lemma raises_on_square_grid side chunk :
  square_grid side chunk = true ->
  raises (chunk_0 <- lift (py_getitem0 chunk) ;;
          chunk_0_rows <- lift (py_iter chunk_0) ;;
          for_each chunk_0_rows (fun row =>
            values <- lift (py_iter row) ;;
            for_each values (fun value => write_f value))
          : M outfile unit).
Proof.
  intros Hgrid. destruct chunk as [bits|rows]; [discriminate Hgrid|].
  cbn [square_grid] in Hgrid. apply andb_prop in Hgrid.
  destruct Hgrid as [Hlen Hrows].
  destruct rows as [|row rows].
  - apply raises_bind_l. apply raises_lift.
  - cbn [forallb] in Hrows. apply andb_prop in Hrows.
    destruct Hrows as [Hrow _].
    destruct row as [bits|values]; [discriminate Hrow|].
    cbn [is_row] in Hrow. apply andb_prop in Hrow.
    destruct Hrow as [Hn Hsamples].
    apply Z.eqb_eq in Hlen, Hn. unfold len in Hlen, Hn. cbn [length] in Hlen.
    destruct values as [|value values]; [cbn [length] in Hn; lia|].
    cbn [forallb] in Hsamples. apply andb_prop in Hsamples.
    destruct Hsamples as [Hvalue _].
    destruct value as [bits|inner]; [|discriminate Hvalue].
    intros s. unfold bind at 1. cbn [lift py_getitem0].
    unfold bind at 1. cbn [lift py_iter].
    apply raises_for_each_first. apply raises_bind_l. apply raises_lift.
Qed.

(** X3.  [save_map] raises on every map whose first noise chunk is a
    square grid, whatever its side. *)
Lemma save_map_raises_on_square_grid
    (CHUNK_SIZE : Z) (Point_getitem : Point.t -> Z -> result Z)
    (map : Map.t) key chunk others side :
  noise_chunks map = (key, chunk) :: others ->
  square_grid side chunk = true ->
  raises (save_map CHUNK_SIZE Point_getitem map).
Proof.
  intros Hnoise Hgrid. unfold save_map.
  do 5 (apply raises_bind_r; intros _).
  unfold save_noise. unfold noise_chunks in Hnoise. rewrite Hnoise.
  do 2 (apply raises_bind_r; intros _).
  apply raises_for_each_first.
  do 5 (apply raises_bind_r; intros ?).
  eapply raises_on_square_grid, Hgrid.
Qed.

(** ** The claims at concrete inputs *)

(** C1 (failing input).  The world of seed 0 with one noise chunk at
    (0, 0), a 1 x 1 grid holding 1.0, satisfies the invariants of the data
    model for [CHUNK_SIZE = 1].  [save_map] raises TypeError on it once it
    has written the row count of the chunk, so that there is no saved
    file to read back; and [load_map] on what was written returns a map
    that is not the one saved: its chunk is keyed by a [Point] and its
    sample is the row count read as a float. *)
Theorem roundtrip_fails_on_noise_chunk :
  square_grid 1 grid_1x1 = true
  /\ save_map 1 Point_not_subscriptable (world_with_chunk grid_1x1) []
     = (Raise TypeError, removelast one_chunk_file)
  /\ load LittleEndian three_kinds
          (file_bytes LittleEndian (removelast one_chunk_file))
     = Ok (Map.set_chunks (Map.new 0)
             [(KeyPoint (Point.new 0 0), PyList [PyList [PyFloat 1]])])
  /\ Map.set_chunks (Map.new 0)
       [(KeyPoint (Point.new 0 0), PyList [PyList [PyFloat 1]])]
     <> world_with_chunk grid_1x1.
Proof.
  repeat split; try (vm_compute; reflexivity).
  intros H. discriminate H.
Qed.

(** C2 (failing input).  [save_map] writes the file [one_chunk_file] for
    a chunk whose first item is a 1 x 1 grid: after the coordinates of the
    chunk come an integer, its row count, and a float, its sample.
    [load_map] reads the coordinates and then one float only: the four
    bytes of the row count are unpacked as the sample (line 117), and the
    four bytes of the sample are left unread. *)
Theorem load_map_skips_row_count :
  save_map 1 Point_not_subscriptable (world_with_chunk nested_1x1) []
  = (Ok tt, one_chunk_file)
  /\ written_formats one_chunk_file
     = [fmt_B; fmt_B; fmt_B; fmt_B; fmt_i; fmt_i; fmt_i; fmt_i;
        fmt_i; fmt_i; fmt_i; fmt_i; fmt_i; fmt_f]
  /\ read_formats
       (snd (load_map LittleEndian three_kinds
               (open_rb (file_bytes LittleEndian one_chunk_file))))
     = [fmt_B; fmt_B; fmt_B; fmt_B; fmt_i; fmt_i; fmt_i; fmt_i;
        fmt_i; fmt_i; fmt_i; fmt_i; fmt_f]
  /\ In (Read 117 fmt_f (word_bytes LittleEndian 1))
        (reads (snd (load_map LittleEndian three_kinds
                       (open_rb (file_bytes LittleEndian one_chunk_file)))))
  /\ unread (snd (load_map LittleEndian three_kinds
                    (open_rb (file_bytes LittleEndian one_chunk_file))))
     = word_bytes LittleEndian float_one.
Proof.
  repeat split; try (vm_compute; reflexivity).
  vm_compute. do 8 right. left. reflexivity.
Qed.

(** C5 (failing input).  The file [one_chunk_file] has 44 bytes.  Cut
    after 40, 41, 42 or 43 bytes it is still loaded without any error,
    and the map returned is the one the whole file gives. *)
Theorem load_map_accepts_truncated_file :
  length (file_bytes LittleEndian one_chunk_file) = 44%nat
  /\ Forall
       (fun n =>
          load LittleEndian three_kinds
               (firstn n (file_bytes LittleEndian one_chunk_file))
          = Ok (Map.set_chunks (Map.new 0)
                  [(KeyPoint (Point.new 0 0), PyList [PyList [PyFloat 1]])]))
       [40; 41; 42; 43]%nat
  /\ load LittleEndian three_kinds (file_bytes LittleEndian one_chunk_file)
     = Ok (Map.set_chunks (Map.new 0)
             [(KeyPoint (Point.new 0 0), PyList [PyList [PyFloat 1]])]).
Proof.
  split; [reflexivity|]. split; [|vm_compute; reflexivity].
  repeat constructor; vm_compute; reflexivity.
Qed.

(** C7 (failing input).  On the world whose noise chunk at (0, 0) is a
    grid of 2 rows of 2 samples, with [CHUNK_SIZE = 2], [save_map] writes
    the coordinates of the chunk and the row count 2, then raises
    TypeError: not one of the four samples is written. *)
Theorem save_map_writes_no_sample_of_a_grid :
  square_grid 2 grid_2x2 = true
  /\ save_map 2 Point_not_subscriptable (world_with_chunk grid_2x2) []
     = (Raise TypeError,
        [field_B 77; field_B 65; field_B 80; field_B 0; field_i 0;
         field_i 0; field_i 0; field_i 0;
         field_i 2; field_i 1; field_ii 0 0; field_i 2]).
Proof. split; vm_compute; reflexivity. Qed.

(** C9 (failing input).  [load_map] on a file with one noise chunk at
    (3, -4) returns a map whose noise chunk is keyed by the [Point]
    (3, -4), not by the pair; [save_map] subscripts the key, which gives
    the coordinates of a pair and, for a [Point] class without
    [__getitem__], TypeError: the map just loaded cannot be saved. *)
Theorem load_map_keys_noise_by_Point :
  load LittleEndian three_kinds (file_bytes LittleEndian side_2_file)
  = Ok (Map.set_chunks (Map.new 0)
          [(KeyPoint (Point.new 3 (-4)), grid_2x2)])
  /\ key_getitem Point_not_subscriptable (KeyPair 3 (-4)) 0 = Ok 3
  /\ key_getitem Point_not_subscriptable (KeyPair 3 (-4)) 1 = Ok (-4)
  /\ save_map 2 Point_not_subscriptable
       (Map.set_chunks (Map.new 0) [(KeyPoint (Point.new 3 (-4)), grid_2x2)])
       []
     = (Raise TypeError,
        [field_B 77; field_B 65; field_B 80; field_B 0; field_i 0;
         field_i 0; field_i 0; field_i 0; field_i 2; field_i 1]).
Proof. repeat split; vm_compute; reflexivity. Qed.

(** C6 (counterexample).  The empty world of seed 0 is saved as 28
    bytes, not as 4 + 4 + 4 + 4 + 4 + 4 = 24. *)
Lemma empty_world_is_not_24_bytes :
  fst (save LittleEndian 16 Point_not_subscriptable (Map.new 0)) = Ok tt
  /\ length (snd (save LittleEndian 16 Point_not_subscriptable (Map.new 0)))
     = 28%nat
  /\ length (snd (save LittleEndian 16 Point_not_subscriptable (Map.new 0)))
     <> (4 + 4 + 4 + 4 + 4 + 4)%nat.
Proof.
  repeat split; try (vm_compute; reflexivity).
  vm_compute. intros H. discriminate H.
Qed.

(** C8 (counterexample).  A file whose stored chunk size is -1 is loaded
    without error; its noise chunk is the empty grid, which has 0 rows
    and not -1. *)
Lemma negative_chunk_size_counterexample :
  fst (load_map LittleEndian three_kinds
         (open_rb (file_bytes LittleEndian negative_size_file)))
  = Ok (Map.set_chunks (Map.new 0) [(KeyPoint (Point.new 0 0), PyList [])])
  /\ In (Read 108 fmt_i (word_bytes LittleEndian (-1)))
        (reads (snd (load_map LittleEndian three_kinds
                       (open_rb (file_bytes LittleEndian negative_size_file)))))
  /\ unpack_i LittleEndian (word_bytes LittleEndian (-1)) = Ok (-1)
  /\ square_grid (-1) (PyList []) = false
  /\ py_len (PyList []) = Ok 0.
Proof.
  repeat split; try (vm_compute; reflexivity).
  vm_compute. do 5 right. left. reflexivity.
Qed.

(** *** Instances of the theorems *)

Lemma load_map_rejects_bad_signature_witness :
  load_map LittleEndian three_kinds
    (open_rb [Byte.x4d; Byte.x41; Byte.x50; Byte.x01; Byte.x07])
  = (Raise (ValueError "Invalid file format"),
     after_read 60 fmt_BBBB
       (open_rb [Byte.x4d; Byte.x41; Byte.x50; Byte.x01; Byte.x07])).
Proof.
  apply (load_map_rejects_bad_signature LittleEndian three_kinds
           [Byte.x4d; Byte.x41; Byte.x50; Byte.x01; Byte.x07]).
  vm_compute. intros H. discriminate H.
Defined.

Lemma load_map_rejects_unknown_tag_witness :
  fst (load_map LittleEndian three_kinds
         (open_rb (file_bytes LittleEndian tag_9_file)))
  = Raise not_an_OreType.
Proof.
  apply (load_map_rejects_unknown_tag LittleEndian three_kinds
           (file_bytes LittleEndian tag_9_file)).
  exists (Read 73 fmt_B [Byte.x09]), 9. split; [|split; reflexivity].
  vm_compute. do 5 right. left. reflexivity.
Defined.

Lemma empty_world_file_witness :
  exists content,
    save LittleEndian 16 Point_not_subscriptable (Map.new 7) = (Ok tt, content)
    /\ length content = (4 + 4 + (4 + 4 + 4) + 4 + 4)%nat
    /\ load LittleEndian three_kinds content = Ok (Map.new 7).
Proof.
  apply (empty_world_file LittleEndian 16 three_kinds Point_not_subscriptable
           (Map.new 7)); reflexivity.
Defined.

Lemma load_map_grids_have_stored_side_witness :
  exists data chunk_size,
    In (Read 108 fmt_i data)
       (reads (snd (load_map LittleEndian three_kinds
                      (open_rb (file_bytes LittleEndian side_2_file)))))
    /\ (forall e,
           In e (reads (snd (load_map LittleEndian three_kinds
                               (open_rb (file_bytes LittleEndian side_2_file)))))
           -> rd_line e = 108%nat -> e = Read 108 fmt_i data)
    /\ unpack_i LittleEndian data = Ok chunk_size
    /\ Forall (fun entry =>
                 square_grid (Z.max 0 chunk_size) (snd entry) = true)
              (noise_chunks
                 (Map.set_chunks (Map.new 0)
                    [(KeyPoint (Point.new 3 (-4)), grid_2x2)])).
Proof.
  apply (load_map_grids_have_stored_side LittleEndian three_kinds
           (file_bytes LittleEndian side_2_file)).
  vm_compute. reflexivity.
Defined.


Lemma save_then_load_without_noise_example :
  save LittleEndian 16 Point_not_subscriptable small_world
  = (Ok tt,
     file_bytes LittleEndian (layout 16 Point_not_subscriptable small_world))
  /\ load LittleEndian three_kinds
       (file_bytes LittleEndian (layout 16 Point_not_subscriptable small_world))
     = Ok small_world.
Proof.
  apply (save_then_load_without_noise LittleEndian 16 three_kinds
           Point_not_subscriptable small_world); [|reflexivity].
  unfold well_formed. repeat split.
  - repeat constructor; cbn; intuition discriminate.
  - repeat constructor. cbn. repeat constructor; cbn; intuition discriminate.
  - repeat constructor; cbn; intuition discriminate.
Defined.

(** * Further properties of [Saver] *)

(** ** When [save_map] succeeds *)

(** X13.  On a map without noise chunks, [save_map] ends normally
    exactly when [struct.pack] accepts every record of the layout: every
    integer fits 32 bits and every ore-kind value fits one unsigned
    byte. *)
Theorem save_map_succeeds_iff_packable
    (CHUNK_SIZE : Z) (Point_getitem : Point.t -> Z -> result Z)
    (map : Map.t) :
  noise_chunks map = [] ->
  fst (save_map CHUNK_SIZE Point_getitem map []) = Ok tt
  <-> forallb packable (layout CHUNK_SIZE Point_getitem map) = true.
Proof.
  intros Hnoise. split.
  - intros Hok.
    destruct (writes_prefix_save_map CHUNK_SIZE Point_getitem map [])
      as (done & later & HL & Hf & Hp & Hlater).
    rewrite Hok in Hlater. specialize (Hlater eq_refl). subst later.
    rewrite app_nil_r in HL. rewrite HL. exact Hp.
  - intros Hp.
    rewrite (writes_all_save_map CHUNK_SIZE Point_getitem map Hnoise Hp []).
    reflexivity.
Qed.

Lemma save_map_succeeds_iff_packable_witness :
  fst (save_map 16 Point_not_subscriptable small_world []) = Ok tt
  <-> forallb packable (layout 16 Point_not_subscriptable small_world) = true.
Proof.
  apply (save_map_succeeds_iff_packable 16 Point_not_subscriptable small_world).
  reflexivity.
Defined.

(** ** What a successful load says about the file *)

Section LoadedSeed.
Variable native : byte_order.
Variable OreType_values : list Z.

Lemma returns_load_ores_perlin map :
  returns (load_ores native OreType_values map)
          (fun map' => Map.perlin map' = Map.perlin map).
Proof.
  unfold load_ores. eapply returns_bind; [apply returns_any|].
  intros num_ores _. apply returns_for_in; [|reflexivity].
  intros _ acc Hacc.
  eapply returns_bind; [apply returns_any|]. intros [chunk_x chunk_y] _.
  eapply returns_bind; [apply returns_any|]. intros n _.
  eapply returns_bind; [apply returns_any|]. intros ores _.
  apply returns_ret. exact Hacc.
Qed.

Lemma returns_load_structures_perlin map :
  returns (load_structures native map)
          (fun map' => Map.perlin map' = Map.perlin map).
Proof.
  unfold load_structures. eapply returns_bind; [apply returns_any|].
  intros num _. apply returns_for_in; [|reflexivity].
  intros _ acc Hacc.
  eapply returns_bind; [apply returns_any|]. intros [chunk_x chunk_y] _.
  eapply returns_bind; [apply returns_any|]. intros n _.
  eapply returns_bind; [apply returns_any|]. intros structures _.
  apply returns_ret. exact Hacc.
Qed.

Lemma returns_load_buildings_perlin map :
  returns (load_buildings native map)
          (fun map' => Map.perlin map' = Map.perlin map).
Proof.
  unfold load_buildings. eapply returns_bind; [apply returns_any|].
  intros num _. apply returns_for_in; [|reflexivity].
  intros _ acc Hacc.
  eapply returns_bind; [apply returns_any|]. intros [position_x position_y] _.
  eapply returns_bind; [apply returns_any|]. intros n _.
  eapply returns_bind; [apply returns_any|]. intros points _.
  apply returns_ret. exact Hacc.
Qed.

Lemma returns_load_noise_seed map :
  returns (load_noise native map)
          (fun map' => Perlin.seed (Map.perlin map')
                       = Perlin.seed (Map.perlin map)).
Proof.
  unfold load_noise. eapply returns_bind; [apply returns_any|].
  intros chunk_size _. eapply returns_bind; [apply returns_any|].
  intros num_chunks _. apply returns_for_in; [|reflexivity].
  intros _ acc Hacc.
  eapply returns_bind; [apply returns_any|]. intros [chunk_x chunk_y] _.
  eapply returns_bind; [apply returns_any|]. intros chunk _.
  apply returns_ret. exact Hacc.
Qed.

(** X5.  [load_map] returns a map only for a file that starts with the
    four bytes of the signature, and the seed of that map is the signed
    32-bit integer stored in the four bytes that follow. *)
Theorem load_map_returns_stored_seed content map f :
  load_map native OreType_values (open_rb content) = (Ok map, f) ->
  firstn 4 content = signature_bytes
  /\ unpack_i native (firstn 4 (skipn 4 content))
     = Ok (Perlin.seed (Map.perlin map)).
Proof.
  intros H. unfold load_map in H.
  apply bind_Ok_inv in H. destruct H as (sig & f1 & H1 & H).
  unfold list_ne in H.
  destruct (list_eq_dec Z.eq_dec sig signature) as [Hsig|Hsig];
    [|discriminate H].
  apply bind_Ok_inv in H. destruct H as (seed & f2 & H2 & H).
  cbv zeta in H.
  apply bind_Ok_inv in H. destruct H as (m1 & f3 & H3 & H).
  apply bind_Ok_inv in H. destruct H as (m2 & f4 & H4 & H).
  apply bind_Ok_inv in H. destruct H as (m3 & f5 & H5 & H).
  apply bind_Ok_inv in H. destruct H as (m4 & f6 & H6 & H).
  apply ret_Ok_inv in H. destruct H as [Hm Hf]. subst m4 f6.
  rewrite read_BBBB_run in H1. rewrite read_i_run in H2.
  change (unread (open_rb content)) with content in H1.
  assert (Hun : unpack_BBBB (firstn 4 content) = Ok sig) by congruence.
  assert (Hf1 : f1 = after_read 60 fmt_BBBB (open_rb content)) by congruence.
  assert (Hseed : unpack_i native (firstn 4 (unread f1)) = Ok seed)
    by congruence.
  subst sig f1. cbn [after_read open_rb unread calcsize] in Hseed.
  split; [apply unpack_BBBB_signature, Hun|].
  rewrite Hseed. f_equal.
  rewrite (returns_load_noise_seed _ _ _ _ H6).
  rewrite (returns_load_buildings_perlin _ _ _ _ H5).
  rewrite (returns_load_structures_perlin _ _ _ _ H4).
  rewrite (returns_load_ores_perlin _ _ _ _ H3).
  reflexivity.
Qed.
End LoadedSeed.

Lemma load_map_returns_stored_seed_witness :
  firstn 4 (file_bytes LittleEndian side_2_file) = signature_bytes
  /\ unpack_i LittleEndian
       (firstn 4 (skipn 4 (file_bytes LittleEndian side_2_file)))
     = Ok (Perlin.seed
             (Map.perlin
                (Map.set_chunks (Map.new 0)
                   [(KeyPoint (Point.new 3 (-4)), grid_2x2)]))).
Proof.
  apply (load_map_returns_stored_seed LittleEndian three_kinds
           (file_bytes LittleEndian side_2_file) _
           (snd (load_map LittleEndian three_kinds
                   (open_rb (file_bytes LittleEndian side_2_file))))).
  vm_compute. reflexivity.
Defined.

(** ** Reading front to back *)

Section Sequential.
Variable native : byte_order.
Variable OreType_values : list Z.














End Sequential.

(** ** Bytes after the noise section *)

Lemma firstn_app_le {A} n (l extra : list A) :
  (n <= length l)%nat -> firstn n (l ++ extra) = firstn n l.
Proof.
  intros Hn. rewrite firstn_app.
  replace (n - length l)%nat with 0%nat by lia.
  rewrite firstn_0. apply app_nil_r.
Qed.

Lemma skipn_app_le {A} n (l extra : list A) :
  (n <= length l)%nat -> skipn n (l ++ extra) = skipn n l ++ extra.
Proof.
  intros Hn. rewrite skipn_app.
  replace (n - length l)%nat with 0%nat by lia. reflexivity.
Qed.

(** A read that returned as many bytes as asked for is not changed by
    bytes appended to the file. *)
Lemma after_read_with_extra line fmt f extra :
  length (firstn (calcsize fmt) (unread f)) = calcsize fmt ->
  firstn (calcsize fmt) (unread (with_extra f extra))
  = firstn (calcsize fmt) (unread f)
  /\ after_read line fmt (with_extra f extra)
     = with_extra (after_read line fmt f) extra.
Proof.
  intros Hlen. rewrite length_firstn in Hlen.
  assert (Hle : (calcsize fmt <= length (unread f))%nat) by lia.
  unfold after_read, with_extra. cbn [unread reads].
  rewrite firstn_app_le, skipn_app_le by exact Hle. split; reflexivity.
Qed.

Section TrailingBytes.
Variable native : byte_order.
Variable OreType_values : list Z.

Lemma blind_ret {A} (a : A) : blind_to_extra (ret a).
Proof.
  intros f a' f' extra H. apply ret_Ok_inv in H. destruct H as [-> ->].
  reflexivity.
Qed.

Lemma blind_lift {A} (r : result A) : blind_to_extra (lift r).
Proof.
  intros f a f' extra H. apply lift_Ok_inv in H. destruct H as [-> ->].
  reflexivity.
Qed.

Lemma blind_raise {A} e : blind_to_extra (@raise infile A e).
Proof. intros f a f' extra H. discriminate H. Qed.

Lemma blind_bind {A B} (m : M infile A) (k : A -> M infile B) :
  blind_to_extra m -> (forall a, blind_to_extra (k a)) ->
  blind_to_extra (bind m k).
Proof.
  intros Hm Hk f b f' extra H. apply bind_Ok_inv in H.
  destruct H as (a & f1 & H1 & H2).
  rewrite (bind_Ok _ _ _ _ _ (Hm _ _ _ extra H1)). apply Hk, H2.
Qed.

Lemma blind_for_in {A T} (xs : list A) (body : A -> T -> M infile T) :
  (forall x acc, blind_to_extra (body x acc)) ->
  forall acc, blind_to_extra (for_in xs body acc).
Proof.
  intros Hbody. induction xs as [|x xs IH]; intros acc; cbn [for_in].
  - apply blind_ret.
  - apply blind_bind; [apply Hbody | exact IH].
Qed.

Lemma blind_read_BBBB line : blind_to_extra (read_BBBB line).
Proof.
  intros f a f' extra H. rewrite read_BBBB_run in H |- *.
  assert (Hun : unpack_BBBB (firstn 4 (unread f)) = Ok a) by congruence.
  assert (Hf' : f' = after_read line fmt_BBBB f) by congruence. subst f'.
  assert (Hlen : length (firstn (calcsize fmt_BBBB) (unread f)) = calcsize fmt_BBBB).
  { cbn [calcsize]. unfold unpack_BBBB in Hun.
    destruct (length (firstn 4 (unread f)) =? 4)%nat eqn:E;
      [apply Nat.eqb_eq, E | discriminate Hun]. }
  destruct (after_read_with_extra line fmt_BBBB f extra Hlen) as [Hd Hs].
  cbn [calcsize] in Hd. rewrite Hd, Hs, Hun. reflexivity.
Qed.

Lemma blind_read_B line : blind_to_extra (read_B line).
Proof.
  intros f a f' extra H. rewrite read_B_run in H |- *.
  assert (Hun : unpack_B (firstn 1 (unread f)) = Ok a) by congruence.
  assert (Hf' : f' = after_read line fmt_B f) by congruence. subst f'.
  assert (Hlen : length (firstn (calcsize fmt_B) (unread f)) = calcsize fmt_B).
  { cbn [calcsize]. unfold unpack_B in Hun.
    destruct (firstn 1 (unread f)) as [|b [|b' l]]; try discriminate Hun.
    reflexivity. }
  destruct (after_read_with_extra line fmt_B f extra Hlen) as [Hd Hs].
  cbn [calcsize] in Hd. rewrite Hd, Hs, Hun. reflexivity.
Qed.

Lemma blind_read_i line : blind_to_extra (read_i native line).
Proof.
  intros f a f' extra H. rewrite read_i_run in H |- *.
  assert (Hun : (unpack_i native) (firstn 4 (unread f)) = Ok a) by congruence.
  assert (Hf' : f' = after_read line fmt_i f) by congruence. subst f'.
  assert (Hlen : length (firstn (calcsize fmt_i) (unread f)) = calcsize fmt_i).
  { cbn [calcsize]. unfold unpack_i in Hun.
    destruct (length (firstn 4 (unread f)) =? 4)%nat eqn:E;
      [apply Nat.eqb_eq, E | discriminate Hun]. }
  destruct (after_read_with_extra line fmt_i f extra Hlen) as [Hd Hs].
  cbn [calcsize] in Hd. rewrite Hd, Hs, Hun. reflexivity.
Qed.

Lemma blind_read_ii line : blind_to_extra (read_ii native line).
Proof.
  intros f a f' extra H. rewrite read_ii_run in H |- *.
  assert (Hun : (unpack_ii native) (firstn 8 (unread f)) = Ok a) by congruence.
  assert (Hf' : f' = after_read line fmt_ii f) by congruence. subst f'.
  assert (Hlen : length (firstn (calcsize fmt_ii) (unread f)) = calcsize fmt_ii).
  { cbn [calcsize]. unfold unpack_ii in Hun.
    destruct (length (firstn 8 (unread f)) =? 8)%nat eqn:E;
      [apply Nat.eqb_eq, E | discriminate Hun]. }
  destruct (after_read_with_extra line fmt_ii f extra Hlen) as [Hd Hs].
  cbn [calcsize] in Hd. rewrite Hd, Hs, Hun. reflexivity.
Qed.

Lemma blind_read_f line : blind_to_extra (read_f native line).
Proof.
  intros f a f' extra H. rewrite read_f_run in H |- *.
  assert (Hun : (unpack_f native) (firstn 4 (unread f)) = Ok a) by congruence.
  assert (Hf' : f' = after_read line fmt_f f) by congruence. subst f'.
  assert (Hlen : length (firstn (calcsize fmt_f) (unread f)) = calcsize fmt_f).
  { cbn [calcsize]. unfold unpack_f in Hun.
    destruct (length (firstn 4 (unread f)) =? 4)%nat eqn:E;
      [apply Nat.eqb_eq, E | discriminate Hun]. }
  destruct (after_read_with_extra line fmt_f f extra Hlen) as [Hd Hs].
  cbn [calcsize] in Hd. rewrite Hd, Hs, Hun. reflexivity.
Qed.

Ltac blind_step :=
  match goal with
  | |- blind_to_extra (bind _ _) => apply blind_bind; [|intros ?]
  | |- blind_to_extra (for_in _ _ _) => apply blind_for_in; intros ? ?
  | |- blind_to_extra (ret _) => apply blind_ret
  | |- blind_to_extra (lift _) => apply blind_lift
  | |- blind_to_extra (raise _) => apply blind_raise
  | |- blind_to_extra (read_i _ _) => apply blind_read_i
  | |- blind_to_extra (read_ii _ _) => apply blind_read_ii
  | |- blind_to_extra (read_f _ _) => apply blind_read_f
  | |- blind_to_extra (read_B _) => apply blind_read_B
  | |- blind_to_extra (read_BBBB _) => apply blind_read_BBBB
  | |- blind_to_extra (match ?p with (_, _) => _ end) => destruct p
  | |- blind_to_extra (if ?b then _ else _) => destruct b
  end.

Lemma blind_load_map : blind_to_extra (load_map native OreType_values).
Proof.
  unfold load_map, load_ores, load_structures, load_buildings, load_noise,
    load_chunk, load_points, read_OreType.
  repeat blind_step.
Qed.

(** X6.  [load_map] does not look for the end of the file: when it
    returns a map for a file, it returns the same map for that file
    followed by any bytes, which it leaves unread. *)
Theorem load_map_ignores_trailing_bytes content extra map :
  load native OreType_values content = Ok map ->
  load native OreType_values (content ++ extra) = Ok map.
Proof.
  unfold load. intros H.
  destruct (load_map native OreType_values (open_rb content)) as [r f']
    eqn:Hrun.
  cbn [fst] in H. subst r.
  change (open_rb (content ++ extra)) with (with_extra (open_rb content) extra).
  rewrite (blind_load_map _ _ _ extra Hrun). reflexivity.
Qed.
End TrailingBytes.

Lemma load_map_ignores_trailing_bytes_witness :
  load LittleEndian three_kinds
       (file_bytes LittleEndian side_2_file ++ [Byte.xff; Byte.x00; Byte.x2a])
  = Ok (Map.set_chunks (Map.new 0) [(KeyPoint (Point.new 3 (-4)), grid_2x2)]).
Proof.
  apply (load_map_ignores_trailing_bytes LittleEndian three_kinds
           (file_bytes LittleEndian side_2_file)
           [Byte.xff; Byte.x00; Byte.x2a]).
  vm_compute. reflexivity.
Defined.

(** ** Counts that are not positive *)

Lemma range_nonpos n : n <= 0 -> range n = [].
Proof.
  intros Hn. unfold range. replace (Z.to_nat n) with 0%nat by lia.
  reflexivity.
Qed.

Section NegativeCounts.
Variable native : byte_order.
Variable OreType_values : list Z.

Lemma parses_load_ores_nonpos map0 n :
  in_int32 n = true -> n <= 0 ->
  parses native (load_ores native OreType_values map0) [field_i n] map0.
Proof.
  intros Hr Hn. unfold load_ores.
  eapply parses_bind_last; [apply parses_read_i; exact Hr|].
  rewrite range_nonpos by exact Hn. apply parses_ret.
Qed.

Lemma parses_load_structures_nonpos map0 n :
  in_int32 n = true -> n <= 0 ->
  parses native (load_structures native map0) [field_i n] map0.
Proof.
  intros Hr Hn. unfold load_structures.
  eapply parses_bind_last; [apply parses_read_i; exact Hr|].
  rewrite range_nonpos by exact Hn. apply parses_ret.
Qed.

Lemma parses_load_buildings_nonpos map0 n :
  in_int32 n = true -> n <= 0 ->
  parses native (load_buildings native map0) [field_i n] map0.
Proof.
  intros Hr Hn. unfold load_buildings.
  eapply parses_bind_last; [apply parses_read_i; exact Hr|].
  rewrite range_nonpos by exact Hn. apply parses_ret.
Qed.

Lemma parses_load_noise_nonpos map0 chunk_size n :
  in_int32 chunk_size = true -> in_int32 n = true -> n <= 0 ->
  parses native (load_noise native map0)
         ([field_i chunk_size] ++ [field_i n]) map0.
Proof.
  intros Hcs Hr Hn. unfold load_noise.
  eapply parses_bind; [apply parses_read_i; exact Hcs|].
  eapply parses_bind_last; [apply parses_read_i; exact Hr|].
  rewrite range_nonpos by exact Hn. apply parses_ret.
Qed.

(** X9.  A count that is zero or negative stands for an empty
    collection: a file that holds, after the signature and the seed,
    four such counts (and any chunk size) is loaded as the world of
    that seed with no ore, no structure, no building and no noise
    chunk. *)
Theorem load_map_reads_nonpositive_counts_as_empty
    seed num_ores num_structures num_buildings chunk_size num_chunks :
  in_int32 seed = true -> in_int32 chunk_size = true ->
  in_int32 num_ores = true -> num_ores <= 0 ->
  in_int32 num_structures = true -> num_structures <= 0 ->
  in_int32 num_buildings = true -> num_buildings <= 0 ->
  in_int32 num_chunks = true -> num_chunks <= 0 ->
  load native OreType_values
       (file_bytes native
          (counts_only_file seed num_ores num_structures num_buildings
             chunk_size num_chunks))
  = Ok (Map.new seed).
Proof.
  intros Hseed Hcs Ho Ho' Hs Hs' Hb Hb' Hn Hn'.
  assert (H : parses native (load_map native OreType_values)
                (counts_only_file seed num_ores num_structures num_buildings
                   chunk_size num_chunks) (Map.new seed)).
  { change (counts_only_file seed num_ores num_structures num_buildings
              chunk_size num_chunks)
      with (flat_map (fun b => [field_B b]) signature
              ++ [field_i seed] ++ [field_i num_ores]
              ++ [field_i num_structures] ++ [field_i num_buildings]
              ++ ([field_i chunk_size] ++ [field_i num_chunks])).
    unfold load_map.
    eapply parses_bind; [apply parses_read_signature|].
    change (list_ne signature signature) with false. cbv iota.
    eapply parses_bind; [apply parses_read_i; exact Hseed|].
    cbv zeta.
    eapply parses_bind; [apply parses_load_ores_nonpos; assumption|].
    eapply parses_bind; [apply parses_load_structures_nonpos; assumption|].
    eapply parses_bind; [apply parses_load_buildings_nonpos; assumption|].
    eapply parses_bind_last; [apply parses_load_noise_nonpos; assumption|].
    apply parses_ret. }
  destruct (proj1 H [] []) as (journal & Hrun).
  rewrite app_nil_r in Hrun. unfold load, open_rb. rewrite Hrun. reflexivity.
Qed.
End NegativeCounts.

Lemma load_map_reads_nonpositive_counts_as_empty_witness :
  load LittleEndian three_kinds
       (file_bytes LittleEndian (counts_only_file 3 (-1) (-7) 0 16 (-2)))
  = Ok (Map.new 3).
Proof.
  apply (load_map_reads_nonpositive_counts_as_empty LittleEndian three_kinds
           3 (-1) (-7) 0 16 (-2)); reflexivity || lia.
Defined.

(** *** Instances of the theorems on worlds without noise and on grids *)

Lemma load_raises_on_truncation_without_noise_witness :
  exists e,
    load LittleEndian three_kinds
         (firstn 50
            (file_bytes LittleEndian
               (layout 16 Point_not_subscriptable small_world)))
    = Raise e.
Proof.
  apply (load_raises_on_truncation_without_noise LittleEndian 16 three_kinds
           Point_not_subscriptable small_world 50).
  - unfold well_formed. repeat split.
    + repeat constructor; cbn; intuition discriminate.
    + repeat constructor. cbn. repeat constructor; cbn; intuition discriminate.
    + repeat constructor; cbn; intuition discriminate.
  - reflexivity.
  - vm_compute. lia.
Defined.

Lemma save_map_raises_on_square_grid_witness :
  raises (save_map 2 Point_not_subscriptable (world_with_chunk grid_2x2)).
Proof.
  apply (save_map_raises_on_square_grid 2 Point_not_subscriptable
           (world_with_chunk grid_2x2) (KeyPair 0 0) grid_2x2 [] 2);
    reflexivity.
Defined.

Lemma load_map_keys_noise_chunks_by_Point_witness :
  Forall (fun key => is_point_key key = true)
         (keys (noise_chunks
                  (Map.set_chunks (Map.new 0)
                     [(KeyPoint (Point.new 3 (-4)), grid_2x2)]))).
Proof.
  apply (load_map_keys_noise_chunks_by_Point LittleEndian three_kinds
           (file_bytes LittleEndian side_2_file) _
           (snd (load_map LittleEndian three_kinds
                   (open_rb (file_bytes LittleEndian side_2_file))))).
  vm_compute. reflexivity.
Defined.

(** ** The outcomes of [load_map] *)

Lemma outcome_ret {S A} (a : A) (Q : A -> Prop) E :
  Q a -> outcome (@ret S A a) Q E.
Proof. intros HQ s. exact HQ. Qed.

Lemma outcome_raise {S A} e (Q : A -> Prop) (E : exn -> Prop) :
  E e -> outcome (@raise S A e) Q E.
Proof. intros HE s. exact HE. Qed.

Lemma outcome_lift {S A} (r : result A) (Q : A -> Prop) (E : exn -> Prop) :
  (forall a, r = Ok a -> Q a) -> (forall e, r = Raise e -> E e) ->
  outcome (@lift S A r) Q E.
Proof.
  intros HQ HE s. cbn. destruct r as [a|e]; [apply HQ | apply HE]; reflexivity.
Qed.

Lemma outcome_bind {S A B} (m : M S A) (k : A -> M S B) Q1 (Q : B -> Prop) E :
  outcome m Q1 E -> (forall a, Q1 a -> outcome (k a) Q E) ->
  outcome (bind m k) Q E.
Proof.
  intros Hm Hk s. unfold bind. specialize (Hm s).
  destruct (m s) as [[a|e] s1]; cbn [fst] in *.
  - apply Hk, Hm.
  - exact Hm.
Qed.

Lemma outcome_weaken {S A} (m : M S A) (Q Q' : A -> Prop) E :
  outcome m Q E -> (forall a, Q a -> Q' a) -> outcome m Q' E.
Proof.
  intros Hm HQ s. specialize (Hm s).
  destruct (fst (m s)); [apply HQ, Hm | exact Hm].
Qed.

(** A loop whose invariant counts the iterations. *)
Lemma outcome_for_in_count {St A T} (xs : list A) (body : A -> T -> M St T)
    (I : nat -> T -> Prop) E :
  (forall x acc k, I k acc -> outcome (body x acc) (I (S k)) E) ->
  forall acc k, I k acc -> outcome (for_in xs body acc) (I (k + length xs)%nat) E.
Proof.
  intros Hbody. induction xs as [|x xs IH]; intros acc k HI;
    cbn [for_in length].
  - apply outcome_ret. rewrite Nat.add_0_r. exact HI.
  - eapply outcome_bind; [apply Hbody, HI|].
    intros acc' HI'. rewrite Nat.add_succ_r. apply (IH acc' (S k) HI').
Qed.

(** A loop whose body knows that its item is one of the list. *)
Lemma outcome_for_in_mem {S A T} (xs : list A) (body : A -> T -> M S T)
    (I : T -> Prop) E :
  (forall x acc, In x xs -> I acc -> outcome (body x acc) I E) ->
  forall acc, I acc -> outcome (for_in xs body acc) I E.
Proof.
  induction xs as [|x xs IH]; intros Hbody acc HI; cbn [for_in].
  - apply outcome_ret, HI.
  - eapply outcome_bind; [apply Hbody; [left; reflexivity | exact HI]|].
    intros acc' HI'. apply IH; [|exact HI'].
    intros x' acc'' Hin. apply Hbody. right. exact Hin.
Qed.

(** *** The values read *)

Lemma signed32_in_int32 u : 0 <= u < 2 ^ 32 -> in_int32 (signed32 u) = true.
Proof.
  intros Hu. apply in_int32_spec. unfold signed32.
  change (2 ^ 32) with 4294967296 in *. change (2 ^ 31) with 2147483648 in *.
  destruct (Z.ltb_spec u 2147483648); lia.
Qed.

Lemma word_of_bytes_bound native data :
  length data = 4%nat -> 0 <= word_of_bytes native data < 2 ^ 32.
Proof.
  intros Hlen. unfold word_of_bytes.
  destruct native.
  - pose proof (le_combine_bound data) as H. rewrite Hlen in H. exact H.
  - pose proof (le_combine_bound (rev data)) as H.
    rewrite length_rev, Hlen in H. exact H.
Qed.

Lemma unpack_i_in_int32 native data v :
  unpack_i native data = Ok v -> in_int32 v = true.
Proof.
  unfold unpack_i. destruct (length data =? 4)%nat eqn:E; [|discriminate].
  intros H. injection H as <-. apply Nat.eqb_eq in E.
  apply signed32_in_int32, word_of_bytes_bound, E.
Qed.

Lemma unpack_ii_in_int32 native data a b :
  unpack_ii native data = Ok (a, b) ->
  in_int32 a = true /\ in_int32 b = true.
Proof.
  unfold unpack_ii. destruct (length data =? 8)%nat eqn:E; [|discriminate].
  intros H. apply Nat.eqb_eq in E.
  assert (Ha : a = signed32 (word_of_bytes native (firstn 4 data)))
    by congruence.
  assert (Hb : b = signed32 (word_of_bytes native (skipn 4 data)))
    by congruence.
  subst a b. split; apply signed32_in_int32, word_of_bytes_bound.
  - rewrite length_firstn, E. reflexivity.
  - rewrite length_skipn, E. reflexivity.
Qed.

Section OutcomeOfReads.
Variable native : byte_order.
Variable OreType_values : list Z.

Lemma outcome_read_BBBB line :
  outcome (read_BBBB line) (fun _ => True) load_error.
Proof.
  intros f. rewrite read_BBBB_run. cbn [fst]. unfold unpack_BBBB.
  destruct (length (firstn 4 (unread f)) =? 4)%nat; [exact I|].
  right. right. reflexivity.
Qed.

Lemma outcome_read_i line :
  outcome (read_i native line) (fun v => in_int32 v = true) load_error.
Proof.
  intros f. rewrite read_i_run. cbn [fst].
  destruct (unpack_i native (firstn 4 (unread f))) as [v|e] eqn:Hun.
  - eapply unpack_i_in_int32, Hun.
  - unfold unpack_i in Hun.
    destruct (length (firstn 4 (unread f)) =? 4)%nat; [discriminate Hun|].
    injection Hun as <-. right. right. reflexivity.
Qed.

Lemma outcome_read_ii line :
  outcome (read_ii native line)
          (fun xy => in_int32 (fst xy) = true /\ in_int32 (snd xy) = true)
          load_error.
Proof.
  intros f. rewrite read_ii_run. cbn [fst].
  destruct (unpack_ii native (firstn 8 (unread f))) as [[a b]|e] eqn:Hun.
  - eapply unpack_ii_in_int32, Hun.
  - unfold unpack_ii in Hun.
    destruct (length (firstn 8 (unread f)) =? 8)%nat; [discriminate Hun|].
    injection Hun as <-. right. right. reflexivity.
Qed.

Lemma outcome_read_f line :
  outcome (read_f native line) (fun v => is_sample v = true) load_error.
Proof.
  intros f. rewrite read_f_run. cbn [fst]. unfold unpack_f.
  destruct (length (firstn 4 (unread f)) =? 4)%nat; [reflexivity|].
  right. right. reflexivity.
Qed.

Lemma outcome_read_OreType line :
  outcome (read_OreType OreType_values line) (ore_kind_ok OreType_values)
          load_error.
Proof.
  intros f. unfold read_OreType, bind. rewrite read_B_run.
  unfold unpack_B.
  destruct (firstn 1 (unread f)) as [|b [|b' data]]; cbn [fst lift].
  - right. right. reflexivity.
  - unfold OreType.call.
    destruct (existsb (Z.eqb (byte.unsigned b)) OreType_values) eqn:Hrec;
      cbn [fst].
    + split; [|exact Hrec]. cbn [OreType.value]. apply in_uint8_spec.
      pose proof (byte.unsigned_range b) as Hb.
      change (2 ^ 8) with 256 in Hb. lia.
    + right. left. reflexivity.
  - right. right. reflexivity.
Qed.
End OutcomeOfReads.

(** *** Dictionaries never hold a key twice *)

Section DictInvariants.
Context {K V : Type} (eqb : K -> K -> bool).
Hypothesis eqb_eq : forall a b, eqb a b = true <-> a = b.

Lemma dict_set_length (d : dict K V) k v :
  (length (dict_set eqb d k v) <= S (length d))%nat.
Proof.
  induction d as [|[k' v'] d IH]; cbn [dict_set length]; [lia|].
  destruct (eqb k' k); cbn [length]; lia.
Qed.

Lemma in_keys_dict_set (d : dict K V) k v x :
  In x (keys (dict_set eqb d k v)) -> In x (keys d) \/ x = k.
Proof.
  induction d as [|[k' v'] d IH]; cbn [dict_set keys List.map fst In].
  - intros [H|[]]. right. symmetry. exact H.
  - destruct (eqb k' k); cbn [keys List.map fst In].
    + intros H. left. exact H.
    + intros [H|H]; [left; left; exact H|].
      destruct (IH H) as [H'|H']; [left; right; exact H' | right; exact H'].
Qed.

Lemma dict_set_NoDup (d : dict K V) k v :
  NoDup (keys d) -> NoDup (keys (dict_set eqb d k v)).
Proof.
  induction d as [|[k' v'] d IH]; cbn [dict_set keys List.map fst];
    intros Hnd.
  - constructor; [intros [] | constructor].
  - inversion Hnd as [|? ? Hnotin Hnd']; subst.
    destruct (eqb k' k) eqn:E; cbn [keys List.map fst].
    + exact Hnd.
    + constructor; [|apply IH, Hnd'].
      intros Hin. apply in_keys_dict_set in Hin. destruct Hin as [Hin|Heq].
      * apply Hnotin, Hin.
      * subst k'. assert (Ht : eqb k k = true) by (apply eqb_eq; reflexivity).
        congruence.
Qed.
End DictInvariants.

Lemma chunk_key_eqb_eq k1 k2 : chunk_key_eqb k1 k2 = true <-> k1 = k2.
Proof.
  destruct k1 as [a b|p], k2 as [c d|q]; cbn [chunk_key_eqb].
  - rewrite andb_true_iff, !Z.eqb_eq. split.
    + intros [-> ->]. reflexivity.
    + intros H. injection H as -> ->. split; reflexivity.
  - split; discriminate.
  - split; discriminate.
  - rewrite Point_eqb_eq. split; [intros ->; reflexivity|].
    intros H. injection H as ->. reflexivity.
Qed.

(** A length bounded by a count read from the file fits 32 bits. *)
Lemma len_in_int32 {A} (l : list A) n :
  in_int32 n = true -> (length l <= Z.to_nat n)%nat ->
  in_int32 (len l) = true.
Proof.
  rewrite !in_int32_spec. unfold len. intros Hn Hlen.
  change (2 ^ 31) with 2147483648 in *. lia.
Qed.

Lemma length_range n : length (range n) = Z.to_nat n.
Proof. unfold range. apply length_seq. Qed.

Lemma in_range i n : In i (range n) -> (i < Z.to_nat n)%nat.
Proof. unfold range. rewrite in_seq. lia. Qed.

(** *** Subscripts in range *)

Lemma list_setitem_in_range {A} (l : list A) i v :
  (i < length l)%nat -> exists l', list_setitem l i v = Ok l'.
Proof.
  revert i. induction l as [|h t IH]; intros i Hi; cbn [length] in Hi;
    [lia|].
  destruct i as [|i]; cbn [list_setitem].
  - eexists. reflexivity.
  - destruct (IH i) as (t' & Ht); [lia|]. rewrite Ht. eexists. reflexivity.
Qed.

Lemma setitem2_in_range n chunk i j v :
  chunk_shape n chunk -> (i < n)%nat -> (j < n)%nat ->
  exists chunk', setitem2 chunk i j v = Ok chunk'.
Proof.
  intros [Hlen Hrows] Hi Hj. unfold setitem2, list_getitem.
  destruct (nth_error chunk i) as [row|] eqn:Hrow.
  - assert (Hin : In row chunk) by (eapply nth_error_In, Hrow).
    rewrite Forall_forall in Hrows. destruct (Hrows row Hin) as [Hn _].
    destruct (list_setitem_in_range row j v) as (row' & Hrow'); [lia|].
    rewrite Hrow'. apply list_setitem_in_range. lia.
  - apply nth_error_None in Hrow. lia.
Qed.

Section OutcomeOfLoad.
Variable native : byte_order.
Variable OreType_values : list Z.

(** Lines 114-117: the subscripts stay within the chunk, so that the
    only exception is that of a short read. *)
Lemma outcome_load_chunk chunk_size :
  outcome (load_chunk native chunk_size)
          (chunk_shape (Z.to_nat chunk_size)) load_error.
Proof.
  unfold load_chunk.
  apply outcome_for_in_mem; [|apply chunk_shape_zero_chunk].
  intros i chunk Hi Hchunk.
  apply outcome_for_in_mem; [|exact Hchunk].
  intros j chunk1 Hj Hchunk1.
  eapply outcome_bind; [apply outcome_read_f|].
  intros v Hv. apply in_range in Hi, Hj.
  destruct (setitem2_in_range _ chunk1 i j v Hchunk1 Hi Hj) as (chunk2 & Hset).
  apply outcome_lift.
  - intros chunk3 H3. eapply chunk_shape_setitem2; eassumption.
  - intros e He. congruence.
Qed.

Lemma outcome_load_points line num_points :
  in_int32 num_points = true ->
  outcome (load_points native line num_points) points_ok load_error.
Proof.
  intros Hn. unfold load_points.
  eapply outcome_weaken.
  - apply (outcome_for_in_count (range num_points) _
             (fun k points => (length points <= k)%nat
                              /\ Forall point_ok points))
      with (k := 0%nat).
    + intros _ points k [Hlen Hpts].
      eapply outcome_bind; [apply outcome_read_ii|].
      intros [point_x point_y] [Hx Hy]. cbn [fst snd] in Hx, Hy.
      apply outcome_ret. split.
      * rewrite length_app. cbn [length]. lia.
      * apply Forall_app. split; [exact Hpts|].
        constructor; [split; assumption | constructor].
    + split; [cbn; lia | constructor].
  - cbn beta. intros points [Hlen Hpts]. rewrite length_range in Hlen.
    split; [exact (len_in_int32 points num_points Hn Hlen) | exact Hpts].
Qed.

Lemma outcome_ore_kinds num_ores_in_chunk :
  in_int32 num_ores_in_chunk = true ->
  outcome
    (for_in (range num_ores_in_chunk) (fun _ ores =>
       ore_type <- read_OreType OreType_values 73 ;;
       num_points <- read_i native 74 ;;
       points <- load_points native 77 num_points ;;
       ret (dict_set OreType.eqb ores ore_type points)) [])
    (ores_ok OreType_values) load_error.
Proof.
  intros Hn. eapply outcome_weaken.
  - apply (outcome_for_in_count (range num_ores_in_chunk) _
             (fun k ores =>
                (length ores <= k)%nat /\ NoDup (keys ores)
                /\ Forall (fun entry =>
                             ore_kind_ok OreType_values (fst entry)
                             /\ points_ok (snd entry)) ores))
      with (k := 0%nat).
    + intros _ ores k (Hlen & Hnd & Hall).
      eapply outcome_bind; [apply outcome_read_OreType|].
      intros ore_type Hkind.
      eapply outcome_bind; [apply outcome_read_i|].
      intros num_points Hnum.
      eapply outcome_bind; [apply outcome_load_points, Hnum|].
      intros points Hpoints. apply outcome_ret. repeat split.
      * pose proof (dict_set_length OreType.eqb ores ore_type points). lia.
      * apply (dict_set_NoDup OreType.eqb OreType_eqb_eq), Hnd.
      * apply (dict_set_Forall OreType.eqb (ore_kind_ok OreType_values)
                 points_ok); assumption.
    + repeat split; [cbn; lia | constructor | constructor].
  - cbn beta. intros ores (Hlen & Hnd & Hall). rewrite length_range in Hlen.
    split; [exact (len_in_int32 ores _ Hn Hlen)|]. split; assumption.
Qed.

Lemma outcome_structures_of_chunk num_structures_in_chunk :
  in_int32 num_structures_in_chunk = true ->
  outcome
    (for_in (range num_structures_in_chunk) (fun _ structures =>
       structure_type <- read_i native 88 ;;
       '(position_x, position_y) <- read_ii native 89 ;;
       num_points <- read_i native 90 ;;
       points <- load_points native 93 num_points ;;
       ret (structures ++
              [Structure.new structure_type
                 (Point.new position_x position_y) points])) [])
    structures_ok load_error.
Proof.
  intros Hn. eapply outcome_weaken.
  - apply (outcome_for_in_count (range num_structures_in_chunk) _
             (fun k structures =>
                (length structures <= k)%nat
                /\ Forall structure_ok structures))
      with (k := 0%nat).
    + intros _ structures k (Hlen & Hall).
      eapply outcome_bind; [apply outcome_read_i|].
      intros structure_type Htype.
      eapply outcome_bind; [apply outcome_read_ii|].
      intros [position_x position_y] [Hx Hy]. cbn [fst snd] in Hx, Hy.
      eapply outcome_bind; [apply outcome_read_i|].
      intros num_points Hnum.
      eapply outcome_bind; [apply outcome_load_points, Hnum|].
      intros points Hpoints. apply outcome_ret. split.
      * rewrite length_app. cbn [length]. lia.
      * apply Forall_app. split; [exact Hall|].
        constructor; [|constructor].
        split; [exact Htype|]. split; [split; assumption | exact Hpoints].
    + split; [cbn; lia | constructor].
  - cbn beta. intros structures (Hlen & Hall). rewrite length_range in Hlen.
    split; [exact (len_in_int32 structures _ Hn Hlen) | exact Hall].
Qed.
End OutcomeOfLoad.

Section OutcomeOfSections.
Variable native : byte_order.
Variable OreType_values : list Z.

Lemma outcome_load_ores map0 :
  Map.ores map0 = [] ->
  outcome (load_ores native OreType_values map0)
          (fun map => exists ores,
               map = Map.set_ores map0 ores
               /\ chunks_ok (ores_ok OreType_values) ores)
          load_error.
Proof.
  intros Hempty. unfold load_ores.
  eapply outcome_bind; [apply outcome_read_i|]. intros num_ores Hn.
  eapply outcome_weaken.
  - apply (outcome_for_in_count (range num_ores) _
             (fun k map =>
                exists ores,
                  map = Map.set_ores map0 ores
                  /\ (length ores <= k)%nat /\ NoDup (keys ores)
                  /\ Forall (fun entry =>
                               point_ok (fst entry)
                               /\ ores_ok OreType_values (snd entry)) ores))
      with (k := 0%nat).
    + intros _ acc k (ores & -> & Hlen & Hnd & Hall).
      eapply outcome_bind; [apply outcome_read_ii|].
      intros [chunk_x chunk_y] [Hx Hy]. cbn [fst snd] in Hx, Hy.
      eapply outcome_bind; [apply outcome_read_i|].
      intros num_ores_in_chunk Hnum.
      eapply outcome_bind; [apply outcome_ore_kinds, Hnum|].
      intros chunk_ores Hchunk. apply outcome_ret.
      exists (dict_set Point.eqb ores (Point.new chunk_x chunk_y) chunk_ores).
      split; [reflexivity|]. repeat split.
      * pose proof (dict_set_length Point.eqb ores
                      (Point.new chunk_x chunk_y) chunk_ores). lia.
      * apply (dict_set_NoDup Point.eqb Point_eqb_eq), Hnd.
      * apply (dict_set_Forall Point.eqb point_ok
                 (ores_ok OreType_values)); [exact Hall | | exact Hchunk].
        split; assumption.
    + exists []. repeat split; try constructor.
      destruct map0. cbn in Hempty. subst. reflexivity.
  - cbn beta. intros map (ores & -> & Hlen & Hnd & Hall).
    rewrite length_range in Hlen. exists ores. split; [reflexivity|].
    split; [exact (len_in_int32 ores _ Hn Hlen)|]. split; assumption.
Qed.

Lemma outcome_load_structures map0 :
  Map.structures map0 = [] ->
  outcome (load_structures native map0)
          (fun map => exists structures,
               map = Map.set_structures map0 structures
               /\ chunks_ok structures_ok structures)
          load_error.
Proof.
  intros Hempty. unfold load_structures.
  eapply outcome_bind; [apply outcome_read_i|]. intros num_structures Hn.
  eapply outcome_weaken.
  - apply (outcome_for_in_count (range num_structures) _
             (fun k map =>
                exists structures,
                  map = Map.set_structures map0 structures
                  /\ (length structures <= k)%nat
                  /\ NoDup (keys structures)
                  /\ Forall (fun entry =>
                               point_ok (fst entry)
                               /\ structures_ok (snd entry)) structures))
      with (k := 0%nat).
    + intros _ acc k (structures & -> & Hlen & Hnd & Hall).
      eapply outcome_bind; [apply outcome_read_ii|].
      intros [chunk_x chunk_y] [Hx Hy]. cbn [fst snd] in Hx, Hy.
      eapply outcome_bind; [apply outcome_read_i|].
      intros num_structures_in_chunk Hnum.
      eapply outcome_bind; [apply outcome_structures_of_chunk, Hnum|].
      intros chunk_structures Hchunk. apply outcome_ret.
      exists (dict_set Point.eqb structures (Point.new chunk_x chunk_y)
                chunk_structures).
      split; [reflexivity|]. repeat split.
      * pose proof (dict_set_length Point.eqb structures
                      (Point.new chunk_x chunk_y) chunk_structures). lia.
      * apply (dict_set_NoDup Point.eqb Point_eqb_eq), Hnd.
      * apply (dict_set_Forall Point.eqb point_ok structures_ok);
          [exact Hall | | exact Hchunk].
        split; assumption.
    + exists []. repeat split; try constructor.
      destruct map0. cbn in Hempty. subst. reflexivity.
  - cbn beta. intros map (structures & -> & Hlen & Hnd & Hall).
    rewrite length_range in Hlen. exists structures. split; [reflexivity|].
    split; [exact (len_in_int32 structures _ Hn Hlen)|]. split; assumption.
Qed.

Lemma outcome_load_buildings map0 :
  Map.buildings map0 = [] ->
  outcome (load_buildings native map0)
          (fun map => exists buildings,
               map = Map.set_buildings map0 buildings
               /\ in_int32 (len buildings) = true
               /\ Forall building_ok buildings)
          load_error.
Proof.
  intros Hempty. unfold load_buildings.
  eapply outcome_bind; [apply outcome_read_i|]. intros num_buildings Hn.
  eapply outcome_weaken.
  - apply (outcome_for_in_count (range num_buildings) _
             (fun k map =>
                exists buildings,
                  map = Map.set_buildings map0 buildings
                  /\ (length buildings <= k)%nat
                  /\ Forall building_ok buildings))
      with (k := 0%nat).
    + intros _ acc k (buildings & -> & Hlen & Hall).
      eapply outcome_bind; [apply outcome_read_ii|].
      intros [position_x position_y] [Hx Hy]. cbn [fst snd] in Hx, Hy.
      eapply outcome_bind; [apply outcome_read_i|].
      intros num_points Hnum.
      eapply outcome_bind; [apply outcome_load_points, Hnum|].
      intros points Hpoints. apply outcome_ret.
      exists (buildings
                ++ [Building.new (Point.new position_x position_y) points]).
      split; [reflexivity|]. split.
      * rewrite length_app. cbn [length]. lia.
      * apply Forall_app. split; [exact Hall|].
        constructor; [|constructor].
        split; [split; assumption | exact Hpoints].
    + exists []. repeat split; try constructor.
      destruct map0. cbn in Hempty. subst. reflexivity.
  - cbn beta. intros map (buildings & -> & Hlen & Hall).
    rewrite length_range in Hlen. exists buildings. split; [reflexivity|].
    split; [exact (len_in_int32 buildings _ Hn Hlen) | exact Hall].
Qed.

Lemma outcome_load_noise map0 :
  noise_chunks map0 = [] ->
  outcome (load_noise native map0)
          (fun map => exists chunks,
               map = Map.set_chunks map0 chunks /\ NoDup (keys chunks))
          load_error.
Proof.
  intros Hempty. unfold load_noise.
  eapply outcome_bind; [apply outcome_read_i|]. intros chunk_size _.
  eapply outcome_bind; [apply outcome_read_i|]. intros num_chunks _.
  apply (outcome_for_in_mem (range num_chunks) _
           (fun map => exists chunks,
                map = Map.set_chunks map0 chunks /\ NoDup (keys chunks))).
  - intros _ acc _ (chunks & -> & Hnd).
    eapply outcome_bind; [apply outcome_read_ii|].
    intros [chunk_x chunk_y] _.
    eapply outcome_bind; [apply outcome_load_chunk|].
    intros chunk _. apply outcome_ret.
    exists (dict_set chunk_key_eqb chunks
              (KeyPoint (Point.new chunk_x chunk_y))
              (PyList (List.map PyList chunk))).
    split; [reflexivity|].
    apply (dict_set_NoDup chunk_key_eqb chunk_key_eqb_eq), Hnd.
  - exists []. split; [|constructor].
    destruct map0 as [[seed chunks] ores structures buildings].
    unfold noise_chunks in Hempty. cbn in Hempty. subst. reflexivity.
Qed.

Lemma outcome_load_map :
  outcome (load_map native OreType_values) (loaded_ok OreType_values)
          load_error.
Proof.
  unfold load_map.
  eapply outcome_bind; [apply outcome_read_BBBB|]. intros file_signature _.
  destruct (list_ne file_signature signature).
  { apply outcome_raise. left. reflexivity. }
  eapply outcome_bind; [apply outcome_read_i|]. intros seed Hseed.
  cbv zeta.
  eapply outcome_bind; [apply outcome_load_ores; reflexivity|].
  intros map1 (ores & -> & Hores).
  eapply outcome_bind; [apply outcome_load_structures; reflexivity|].
  intros map2 (structures & -> & Hstructures).
  eapply outcome_bind; [apply outcome_load_buildings; reflexivity|].
  intros map3 (buildings & -> & Hbuildings).
  eapply outcome_bind; [apply outcome_load_noise; reflexivity|].
  intros map4 (chunks & -> & Hchunks).
  apply outcome_ret. unfold loaded_ok, noise_chunks. cbn.
  repeat split; try assumption; try apply Hores; try apply Hstructures;
    try apply Hbuildings.
Qed.
End OutcomeOfSections.

(** ** Maps read from a file *)





(** *** Saving a map that was loaded *)

Lemma packable_flat_map {X} (g : X -> list field) xs :
  Forall (fun x => forallb packable (g x) = true) xs ->
  forallb packable (flat_map g xs) = true.
Proof.
  intros H. rewrite forallb_flat_map. apply forallb_forall.
  rewrite Forall_forall in H. exact H.
Qed.

Lemma packable_point p : point_ok p ->
  packable (field_ii (Point.x p) (Point.y p)) = true.
Proof. intros [Hx Hy]. cbn [packable]. rewrite Hx, Hy. reflexivity. Qed.

Lemma packable_points_layout points :
  Forall point_ok points -> forallb packable (points_layout points) = true.
Proof.
  intros H. unfold points_layout. apply packable_flat_map.
  eapply Forall_impl; [|exact H]. intros p Hp. cbn [forallb].
  rewrite packable_point by exact Hp. reflexivity.
Qed.

Lemma packable_point_list point points :
  point_ok point -> points_ok points ->
  forallb packable
    ([field_ii (Point.x point) (Point.y point)] ++ [field_i (len points)]
       ++ points_layout points) = true.
Proof.
  intros [Hx Hy] [Hlen Hpts]. rewrite !forallb_app. cbn [forallb packable].
  rewrite Hx, Hy, Hlen, packable_points_layout by exact Hpts.
  reflexivity.
Qed.

Section LoadedIsWellFormed.
Variable CHUNK_SIZE : Z.
Variable Point_getitem : Point.t -> Z -> result Z.
Variable OreType_values : list Z.

Lemma packable_ores_layout map :
  chunks_ok (ores_ok OreType_values) (Map.ores map) ->
  forallb packable (ores_layout map) = true.
Proof.
  intros (Hlen & _ & Hall). unfold ores_layout, items.
  rewrite forallb_app. cbn [forallb packable]. rewrite Hlen. cbn [andb].
  apply packable_flat_map. eapply Forall_impl; [|exact Hall].
  intros [chunk_coords ores] [[Hx Hy] (Hn & _ & Hkinds)]. cbn [fst snd] in *.
  unfold ore_chunk_layout, items. rewrite !forallb_app.
  cbn [forallb packable]. rewrite Hx, Hy, Hn. cbn [andb].
  apply packable_flat_map. eapply Forall_impl; [|exact Hkinds].
  intros [ore_type ore] [[Htag _] [Hm Hpts]]. cbn [fst snd] in *.
  unfold ore_layout. rewrite !forallb_app. cbn [forallb packable].
  rewrite Htag, Hm, packable_points_layout by exact Hpts. reflexivity.
Qed.

Lemma packable_structures_layout map :
  chunks_ok structures_ok (Map.structures map) ->
  forallb packable (structures_layout map) = true.
Proof.
  intros (Hlen & _ & Hall). unfold structures_layout, items.
  rewrite forallb_app. cbn [forallb packable]. rewrite Hlen. cbn [andb].
  apply packable_flat_map. eapply Forall_impl; [|exact Hall].
  intros [chunk_coords structures] [[Hx Hy] [Hn Hstr]]. cbn [fst snd] in *.
  unfold structure_chunk_layout. rewrite !forallb_app.
  cbn [forallb packable]. rewrite Hx, Hy, Hn. cbn [andb].
  apply packable_flat_map. eapply Forall_impl; [|exact Hstr].
  intros structure (Htype & Hpos & Hpts).
  unfold structure_layout. rewrite forallb_app. cbn [forallb packable].
  rewrite Htype. cbn [andb]. apply packable_point_list; assumption.
Qed.

Lemma packable_buildings_layout map :
  in_int32 (len (Map.buildings map)) = true ->
  Forall building_ok (Map.buildings map) ->
  forallb packable (buildings_layout map) = true.
Proof.
  intros Hlen Hall. unfold buildings_layout.
  rewrite forallb_app. cbn [forallb packable]. rewrite Hlen. cbn [andb].
  apply packable_flat_map. eapply Forall_impl; [|exact Hall].
  intros building [Hpos Hpts]. unfold building_layout.
  apply packable_point_list; assumption.
Qed.

(** The invariants of a loaded map are those [save_map] relies on. *)
Lemma loaded_ok_well_formed map :
  loaded_ok OreType_values map ->
  noise_chunks map = [] ->
  in_int32 CHUNK_SIZE = true ->
  well_formed CHUNK_SIZE Point_getitem OreType_values map.
Proof.
  intros (Hseed & Hores & Hstr & [Hblen Hbld] & _) Hnoise Hcs.
  unfold well_formed. repeat split.
  - unfold layout, noise_layout. unfold noise_chunks in Hnoise.
    rewrite Hnoise. rewrite !forallb_app.
    rewrite packable_ores_layout, packable_structures_layout,
      packable_buildings_layout by assumption.
    cbn. rewrite Hseed, Hcs. reflexivity.
  - apply Hores.
  - destruct Hores as (_ & _ & Hall).
    eapply Forall_impl; [|exact Hall].
    intros [chunk_coords ores] [_ (_ & Hnd & Hkinds)]. cbn [snd] in *.
    split; [exact Hnd|].
    eapply Forall_impl; [|exact Hkinds].
    intros entry [[_ Hrec] _]. exact Hrec.
  - apply Hstr.
Qed.
End LoadedIsWellFormed.

(** X12.  A map that [load_map] returned without noise chunks can be
    saved again, whatever the file it came from ([CHUNK_SIZE] fitting 32
    bits): [save_map] ends normally, and [load_map] on the new file
    returns the same map. *)
Theorem save_then_load_a_loaded_map
    (native : byte_order) (CHUNK_SIZE : Z) (OreType_values : list Z)
    (Point_getitem : Point.t -> Z -> result Z)
    (content : list byte) (map : Map.t) :
  load native OreType_values content = Ok map ->
  noise_chunks map = [] ->
  in_int32 CHUNK_SIZE = true ->
  exists content',
    save native CHUNK_SIZE Point_getitem map = (Ok tt, content')
    /\ load native OreType_values content' = Ok map.
Proof.
  intros Hload Hnoise Hcs.
  assert (Hok : loaded_ok OreType_values map).
  { unfold load in Hload.
    pose proof (outcome_load_map native OreType_values (open_rb content))
      as Ho.
    rewrite Hload in Ho. exact Ho. }
  pose proof (loaded_ok_well_formed CHUNK_SIZE Point_getitem OreType_values
                map Hok Hnoise Hcs) as Hwf.
  eexists. apply (save_then_load_without_noise native CHUNK_SIZE
                    OreType_values Point_getitem map Hwf Hnoise).
Qed.

Lemma save_then_load_a_loaded_map_witness :
  exists content',
    save LittleEndian 16 Point_not_subscriptable (Map.new 3) = (Ok tt, content')
    /\ load LittleEndian three_kinds content' = Ok (Map.new 3).
Proof.
  apply (save_then_load_a_loaded_map LittleEndian 16 three_kinds
           Point_not_subscriptable
           (file_bytes LittleEndian (counts_only_file 3 (-1) (-7) 0 16 (-2)))
           (Map.new 3)); reflexivity.
Defined.

(** ** The round trip of a world without noise chunks *)

(** X1.  A map without noise chunks that satisfies the invariants of the
    data model (distinct chunk keys, distinct ore kinds taken from the
    enumeration, every integer and length within its field) is saved in
    full, and loading the saved file returns the very same map: same
    seed, same dictionaries with their entries in the same order, same
    point lists and footprints, for either byte order. *)
Theorem roundtrip_without_noise
    (native : byte_order) (CHUNK_SIZE : Z) (OreType_values : list Z)
    (Point_getitem : Point.t -> Z -> result Z) (map : Map.t) :
  well_formed CHUNK_SIZE Point_getitem OreType_values map ->
  noise_chunks map = [] ->
  exists content,
    save native CHUNK_SIZE Point_getitem map = (Ok tt, content)
    /\ load native OreType_values content = Ok map.
Proof.
  intros Hwf Hnoise. eexists.
  apply (save_then_load_without_noise native CHUNK_SIZE OreType_values
           Point_getitem map Hwf Hnoise).
Qed.

Lemma roundtrip_without_noise_witness :
  exists content,
    save BigEndian 16 Point_not_subscriptable small_world = (Ok tt, content)
    /\ load BigEndian three_kinds content = Ok small_world.
Proof.
  apply (roundtrip_without_noise BigEndian 16 three_kinds
           Point_not_subscriptable small_world); [|reflexivity].
  unfold well_formed. repeat split.
  - repeat constructor; cbn; intuition discriminate.
  - repeat constructor. cbn. repeat constructor; cbn; intuition discriminate.
  - repeat constructor; cbn; intuition discriminate.
Defined.

(** ** The size of the file *)

Section FileSize.
Variable native : byte_order.

Lemma length_file_bytes_app (L1 L2 : list field) :
  length (file_bytes native (L1 ++ L2))
  = (length (file_bytes native L1) + length (file_bytes native L2))%nat.
Proof. rewrite file_bytes_app. apply length_app. Qed.

Lemma length_file_bytes_flat_map {X} (g : X -> list field) xs :
  length (file_bytes native (flat_map g xs))
  = list_sum (List.map (fun x => length (file_bytes native (g x))) xs).
Proof.
  induction xs as [|x xs IH]; cbn [flat_map List.map list_sum]; [reflexivity|].
  rewrite length_file_bytes_app, IH. reflexivity.
Qed.

Lemma length_file_bytes_one fld :
  length (file_bytes native [fld]) = length (field_bytes native fld).
Proof. cbn [file_bytes flat_map]. rewrite app_nil_r. reflexivity. Qed.

Lemma length_points_layout points :
  length (file_bytes native (points_layout points)) = (8 * length points)%nat.
Proof.
  unfold points_layout.
  induction points as [|p points IH]; cbn [flat_map]; [reflexivity|].
  rewrite length_file_bytes_app, IH, length_file_bytes_one,
    length_field_bytes.
  cbn [length]. lia.
Qed.

Lemma list_sum_map_ext {X} (g h : X -> nat) xs :
  (forall x, g x = h x) -> list_sum (List.map g xs) = list_sum (List.map h xs).
Proof. intros H. f_equal. apply map_ext, H. Qed.

Lemma length_ore_chunk_layout entry :
  length (file_bytes native (ore_chunk_layout entry)) = ore_chunk_size entry.
Proof.
  destruct entry as [chunk_coords ores].
  unfold ore_chunk_layout, ore_chunk_size, items. cbn [snd].
  rewrite !length_file_bytes_app, !length_file_bytes_one,
    !length_field_bytes, length_file_bytes_flat_map.
  rewrite (list_sum_map_ext _ ore_size); [lia|].
  intros [ore_type ore]. unfold ore_layout, ore_size. cbn [snd].
  rewrite !length_file_bytes_app, !length_file_bytes_one,
    !length_field_bytes, length_points_layout. lia.
Qed.

Lemma length_structure_chunk_layout entry :
  length (file_bytes native (structure_chunk_layout entry))
  = structure_chunk_size entry.
Proof.
  destruct entry as [chunk_coords structures].
  unfold structure_chunk_layout, structure_chunk_size. cbn [snd].
  rewrite !length_file_bytes_app, !length_file_bytes_one,
    !length_field_bytes, length_file_bytes_flat_map.
  rewrite (list_sum_map_ext _ structure_size); [lia|].
  intros structure. unfold structure_layout, structure_size.
  rewrite !length_file_bytes_app, !length_file_bytes_one,
    !length_field_bytes, length_points_layout. lia.
Qed.

Lemma length_building_layout building :
  length (file_bytes native (building_layout building))
  = building_size building.
Proof.
  unfold building_layout, building_size.
  rewrite !length_file_bytes_app, !length_file_bytes_one,
    !length_field_bytes, length_points_layout. lia.
Qed.

Lemma length_layout_without_noise CHUNK_SIZE Point_getitem map :
  noise_chunks map = [] ->
  length (file_bytes native (layout CHUNK_SIZE Point_getitem map))
  = save_size map.
Proof.
  intros Hnoise. unfold layout, ores_layout, structures_layout,
    buildings_layout, noise_layout, save_size, items.
  unfold noise_chunks in Hnoise. rewrite Hnoise.
  rewrite !length_file_bytes_app, !length_file_bytes_one,
    !length_field_bytes, !length_file_bytes_flat_map.
  rewrite (list_sum_map_ext _ ore_chunk_size)
    by apply length_ore_chunk_layout.
  rewrite (list_sum_map_ext _ structure_chunk_size)
    by apply length_structure_chunk_layout.
  rewrite (list_sum_map_ext _ building_size)
    by apply length_building_layout.
  cbn [signature List.map file_bytes flat_map field_bytes length app].
  change (list_sum [1; 1; 1; 1])%nat with 4%nat.
  change (list_sum []) with 0%nat. lia.
Qed.

(** X10.  The file of a map without noise chunks that [save_map] saved
    has [save_size] bytes: 28 for the signature, the seed, the four
    counts and the chunk size, 12 per ore chunk, 5 per ore kind of a
    chunk, 12 per structure chunk, 16 per structure, 12 per building,
    and 8 per point of an ore, of a footprint. *)
Theorem saved_file_size
    (CHUNK_SIZE : Z) (Point_getitem : Point.t -> Z -> result Z)
    (map : Map.t) (content : list byte) :
  noise_chunks map = [] ->
  save native CHUNK_SIZE Point_getitem map = (Ok tt, content) ->
  length content = save_size map.
Proof.
  intros Hnoise Hsave. unfold save in Hsave.
  destruct (writes_prefix_save_map CHUNK_SIZE Point_getitem map [])
    as (done & later & HL & Hf & _ & Hlater).
  destruct (save_map CHUNK_SIZE Point_getitem map []) as [r f].
  cbn [fst snd app] in Hf, Hlater. subst f.
  assert (Hr : r = Ok tt) by congruence. subst r.
  specialize (Hlater eq_refl). subst later. rewrite app_nil_r in HL.
  assert (Hc : content = file_bytes native done) by congruence.
  rewrite Hc, <- HL. apply length_layout_without_noise, Hnoise.
Qed.

(** X14.  Two maps without noise chunks that satisfy the invariants of
    the data model and are saved as the same bytes are the same map:
    the file loses nothing of such a world. *)
Theorem saved_files_differ
    (CHUNK_SIZE : Z) (OreType_values : list Z)
    (Point_getitem : Point.t -> Z -> result Z) (map1 map2 : Map.t) :
  well_formed CHUNK_SIZE Point_getitem OreType_values map1 ->
  well_formed CHUNK_SIZE Point_getitem OreType_values map2 ->
  noise_chunks map1 = [] -> noise_chunks map2 = [] ->
  snd (save native CHUNK_SIZE Point_getitem map1)
  = snd (save native CHUNK_SIZE Point_getitem map2) ->
  map1 = map2.
Proof.
  intros Hwf1 Hwf2 Hn1 Hn2 Hsame.
  destruct (save_then_load_without_noise native CHUNK_SIZE OreType_values
              Point_getitem map1 Hwf1 Hn1) as [Hs1 Hl1].
  destruct (save_then_load_without_noise native CHUNK_SIZE OreType_values
              Point_getitem map2 Hwf2 Hn2) as [Hs2 Hl2].
  rewrite Hs1, Hs2 in Hsame. cbn [snd] in Hsame.
  rewrite Hsame in Hl1. congruence.
Qed.
End FileSize.

Lemma saved_file_size_witness :
  length (file_bytes LittleEndian
            (layout 16 Point_not_subscriptable small_world))
  = save_size small_world.
Proof.
  apply (saved_file_size LittleEndian 16 Point_not_subscriptable small_world);
    reflexivity.
Defined.

Lemma saved_files_differ_witness : small_world = small_world.
Proof.
  apply (saved_files_differ LittleEndian 16 three_kinds
           Point_not_subscriptable small_world small_world);
    try reflexivity;
    (unfold well_formed; repeat split;
     [ repeat constructor; cbn; intuition discriminate
     | repeat constructor; cbn; repeat constructor; cbn;
       intuition discriminate
     | repeat constructor; cbn; intuition discriminate ]).
Defined.

(** ** The noise section that [load_map] reads *)

Lemma list_setitem_middle {A} (a b : list A) x v :
  list_setitem (a ++ x :: b) (length a) v = Ok (a ++ v :: b).
Proof.
  induction a as [|h a IH]; cbn [app length list_setitem]; [reflexivity|].
  rewrite IH. reflexivity.
Qed.

Lemma list_getitem_middle {A} (a b : list A) x :
  list_getitem (a ++ x :: b) (length a) = Ok x.
Proof.
  unfold list_getitem. rewrite nth_error_app2 by lia.
  rewrite Nat.sub_diag. reflexivity.
Qed.

Lemma setitem2_middle {A} (pre post : list (list A)) (done rest : list A) x v :
  setitem2 (pre ++ (done ++ x :: rest) :: post) (length pre) (length done) v
  = Ok (pre ++ (done ++ v :: rest) :: post).
Proof.
  unfold setitem2. rewrite list_getitem_middle, list_setitem_middle.
  apply list_setitem_middle.
Qed.

Lemma NoDup_map_KeyPoint (points : list Point.t) :
  NoDup points -> NoDup (List.map KeyPoint points).
Proof.
  induction 1 as [|p points Hnotin Hnd IH]; cbn [List.map]; constructor.
  - intros Hin. apply in_map_iff in Hin. destruct Hin as (q & Hq & Hin).
    apply Hnotin. congruence.
  - exact IH.
Qed.

Section ReadNoise.
Variable native : byte_order.
Variable OreType_values : list Z.

Lemma parses_read_f line bits :
  0 <= bits < 2 ^ 32 ->
  parses native (read_f native line) [field_f bits] (PyFloat bits).
Proof.
  intros Hb. split.
  - intros rest journal. eexists. rewrite read_f_run.
    unfold after_read.
    cbn [unread reads calcsize file_bytes flat_map field_bytes].
    rewrite app_nil_r.
    rewrite firstn_exact, skipn_exact by apply length_word_bytes.
    rewrite unpack_f_word_bytes by exact Hb. reflexivity.
  - intros n journal Hn. rewrite read_f_run. unfold unpack_f.
    cbn [unread file_bytes flat_map field_bytes] in Hn |- *.
    rewrite app_nil_r, length_word_bytes in Hn.
    apply (length_short_read 4 n (word_bytes native bits ++ [])) in Hn.
    apply Nat.eqb_neq in Hn. rewrite Hn. eexists _, _. reflexivity.
Qed.

(** The inner loop of lines 116-117 fills row [i] from left to right. *)
Lemma parses_fill_row (pre post : list (list pyobj)) (values : list Z) :
  Forall (fun bits => 0 <= bits < 2 ^ 32) values ->
  forall (done rest : list pyobj),
    length rest = length values ->
    parses native
      (for_in (seq (length done) (length values)) (fun j chunk =>
         value <- read_f native 117 ;;
         lift (setitem2 chunk (length pre) j value))
         (pre ++ (done ++ rest) :: post))
      (List.map field_f values)
      (pre ++ (done ++ List.map PyFloat values) :: post).
Proof.
  induction values as [|bits values IH]; intros Hvalues done rest Hlen.
  - destruct rest; [|discriminate Hlen]. cbn [length seq for_in List.map].
    apply parses_ret.
  - destruct rest as [|x rest]; [discriminate Hlen|].
    inversion Hvalues as [|? ? Hbits Hvalues']; subst.
    cbn [length seq for_in List.map].
    change (field_f bits :: List.map field_f values)
      with ([field_f bits] ++ List.map field_f values).
    eapply parses_bind.
    + eapply parses_bind_last; [apply parses_read_f; exact Hbits|].
      apply parses_lift. apply setitem2_middle.
    + replace (done ++ PyFloat bits :: List.map PyFloat values)
        with ((done ++ [PyFloat bits]) ++ List.map PyFloat values)
        by (rewrite <- app_assoc; reflexivity).
      replace (done ++ PyFloat bits :: rest)
        with ((done ++ [PyFloat bits]) ++ rest)
        by (rewrite <- app_assoc; reflexivity).
      replace (S (length done)) with (length (done ++ [PyFloat bits]))
        by (rewrite length_app; cbn [length]; lia).
      apply IH; [exact Hvalues'|].
      cbn [length] in Hlen. lia.
Qed.

(** The outer loop of lines 115-117 fills the rows from top to bottom. *)
Lemma parses_fill_rows n (grid : list (list Z)) :
  Forall (fun row => length row = n
                     /\ Forall (fun bits => 0 <= bits < 2 ^ 32) row) grid ->
  forall (filled : list (list pyobj)),
    parses native
      (for_in (seq (length filled) (length grid)) (fun i chunk =>
         for_in (seq 0 n) (fun j chunk =>
           value <- read_f native 117 ;;
           lift (setitem2 chunk i j value)) chunk)
         (filled ++ repeat (repeat (PyFloat 0) n) (length grid)))
      (samples_layout grid)
      (filled ++ List.map (List.map PyFloat) grid).
Proof.
  unfold samples_layout.
  induction grid as [|row grid IH]; intros Hgrid filled.
  - cbn [length seq for_in List.map flat_map repeat]. apply parses_ret.
  - inversion Hgrid as [|? ? [Hlen Hrow] Hgrid']; subst.
    cbn [length seq for_in List.map flat_map repeat].
    eapply parses_bind.
    + apply (parses_fill_row filled _ row Hrow []).
      apply repeat_length.
    + cbn [app].
      replace (filled ++ List.map PyFloat row :: List.map (List.map PyFloat) grid)
        with ((filled ++ [List.map PyFloat row])
                ++ List.map (List.map PyFloat) grid)
        by (rewrite <- app_assoc; reflexivity).
      replace (filled ++ List.map PyFloat row
                 :: repeat (repeat (PyFloat 0) (length row)) (length grid))
        with ((filled ++ [List.map PyFloat row])
                ++ repeat (repeat (PyFloat 0) (length row)) (length grid))
        by (rewrite <- app_assoc; reflexivity).
      replace (S (length filled))
        with (length (filled ++ [List.map PyFloat row]))
        by (rewrite length_app; cbn [length]; lia).
      apply IH. exact Hgrid'.
Qed.

Lemma map_const_seq {A} (x : A) n start :
  List.map (fun _ => x) (seq start n) = repeat x n.
Proof.
  revert start. induction n as [|n IH]; intros start;
    cbn [seq List.map repeat]; [reflexivity|].
  rewrite IH. reflexivity.
Qed.

Lemma zero_chunk_repeat chunk_size :
  zero_chunk chunk_size chunk_size
  = repeat (repeat (PyFloat 0) (Z.to_nat chunk_size)) (Z.to_nat chunk_size).
Proof. unfold zero_chunk, range. apply map_const_seq. Qed.

Lemma parses_load_chunk chunk_size grid :
  grid_ok (Z.to_nat chunk_size) grid ->
  parses native (load_chunk native chunk_size) (samples_layout grid)
         (List.map (List.map PyFloat) grid).
Proof.
  intros [Hlen Hgrid]. unfold load_chunk.
  rewrite zero_chunk_repeat. unfold range. rewrite <- Hlen at 1 3.
  apply (parses_fill_rows (Z.to_nat chunk_size) grid Hgrid []).
Qed.

Lemma fold_set_chunks (chunks : list (Point.t * list (list Z))) map :
  NoDup (keys (Perlin.chunks (Map.perlin map) ++ read_noise_chunks chunks)) ->
  fold_left (fun map entry =>
               Map.set_chunks map
                 (dict_set chunk_key_eqb (Perlin.chunks (Map.perlin map))
                    (KeyPoint (fst entry)) (py_grid (snd entry))))
            chunks map
  = Map.set_chunks map
      (Perlin.chunks (Map.perlin map) ++ read_noise_chunks chunks).
Proof.
  revert map. induction chunks as [|[p grid] chunks IH]; intros map Hnd;
    cbn [fold_left fst snd read_noise_chunks List.map].
  - rewrite app_nil_r. destruct map as [[seed noise] ? ? ?]. reflexivity.
  - assert (Hfresh : ~ In (KeyPoint p) (keys (Perlin.chunks (Map.perlin map)))).
    { unfold keys in *. rewrite map_app in Hnd.
      cbn [read_noise_chunks List.map fst] in Hnd.
      apply NoDup_remove_2 in Hnd. intros Hin. apply Hnd.
      apply in_or_app. left. exact Hin. }
    rewrite (dict_set_fresh chunk_key_eqb chunk_key_eqb_eq) by exact Hfresh.
    rewrite IH.
    + cbn [Map.set_chunks Map.perlin Perlin.chunks Perlin.seed
             Map.ores Map.structures Map.buildings].
      rewrite <- app_assoc. reflexivity.
    + cbn [Map.set_chunks Map.perlin Perlin.chunks Perlin.seed].
      rewrite <- app_assoc. exact Hnd.
Qed.

Lemma parses_load_noise map0 chunk_size chunks :
  Perlin.chunks (Map.perlin map0) = [] ->
  in_int32 chunk_size = true ->
  in_int32 (len chunks) = true ->
  NoDup (List.map fst chunks) ->
  Forall (fun entry => point_ok (fst entry)
                       /\ grid_ok (Z.to_nat chunk_size) (snd entry)) chunks ->
  parses native (load_noise native map0)
    ([field_i chunk_size] ++ [field_i (len chunks)]
       ++ flat_map read_chunk_layout chunks)
    (Map.set_chunks map0 (read_noise_chunks chunks)).
Proof.
  intros Hempty Hcs Hn Hnd Hchunks. unfold load_noise.
  eapply parses_bind; [apply parses_read_i; exact Hcs|].
  eapply parses_bind; [apply parses_read_i; exact Hn|].
  eapply parses_eq.
  - apply (parses_for_in_range native chunks read_chunk_layout
             (fun map entry =>
                Map.set_chunks map
                  (dict_set chunk_key_eqb (Perlin.chunks (Map.perlin map))
                     (KeyPoint (fst entry)) (py_grid (snd entry))))).
    intros [[px py] grid] i acc Hin.
    rewrite Forall_forall in Hchunks.
    destruct (Hchunks _ Hin) as [[Hx Hy] Hgrid]. cbn [fst snd] in *.
    unfold read_chunk_layout. cbn [fst snd Point.x Point.y] in *.
    eapply parses_bind;
      [apply parses_read_ii; rewrite Hx, Hy; reflexivity|].
    cbv iota beta.
    eapply parses_bind_last; [apply parses_load_chunk; exact Hgrid|].
    eapply parses_eq; [apply parses_ret|].
    unfold py_grid. rewrite map_map. reflexivity.
  - rewrite fold_set_chunks; rewrite Hempty; cbn [app]; [reflexivity|].
    unfold keys, read_noise_chunks. rewrite map_map. cbn [fst].
    rewrite <- (map_map fst KeyPoint). apply NoDup_map_KeyPoint. exact Hnd.
Qed.

Lemma parses_load_map_noise seed chunk_size chunks :
  in_int32 seed = true ->
  in_int32 chunk_size = true ->
  in_int32 (len chunks) = true ->
  NoDup (List.map fst chunks) ->
  Forall (fun entry => point_ok (fst entry)
                       /\ grid_ok (Z.to_nat chunk_size) (snd entry)) chunks ->
  parses native (load_map native OreType_values)
    (read_noise_file seed chunk_size chunks)
    (Map.set_chunks (Map.new seed) (read_noise_chunks chunks)).
Proof.
  intros Hseed Hcs Hn Hnd Hchunks. unfold load_map, read_noise_file.
  eapply parses_bind; [apply parses_read_signature|].
  change (list_ne signature signature) with false. cbv iota.
  eapply parses_bind; [apply parses_read_i; exact Hseed|].
  cbv zeta.
  eapply parses_bind;
    [apply (parses_load_ores native OreType_values (Map.new seed) []);
     [reflexivity | reflexivity | constructor | constructor]|].
  eapply parses_bind;
    [apply (parses_load_structures native _ []);
     [reflexivity | reflexivity | constructor]|].
  eapply parses_bind;
    [apply (parses_load_buildings native _ []); reflexivity|].
  eapply parses_bind_last;
    [apply parses_load_noise; [reflexivity | assumption ..]|].
  apply parses_ret.
Qed.


(** X16.  Cut anywhere before its end, a file of that form makes
    [load_map] raise: with the noise section in the form it reads,
    [load_map] never takes a part of a file for a whole one. *)
Theorem load_map_raises_on_truncated_grids seed chunk_size chunks n :
  in_int32 seed = true ->
  in_int32 chunk_size = true ->
  in_int32 (len chunks) = true ->
  NoDup (List.map fst chunks) ->
  Forall (fun entry => point_ok (fst entry)
                       /\ grid_ok (Z.to_nat chunk_size) (snd entry)) chunks ->
  (n < length (file_bytes native (read_noise_file seed chunk_size chunks)))%nat ->
  exists e,
    load native OreType_values
         (firstn n (file_bytes native (read_noise_file seed chunk_size chunks)))
    = Raise e.
Proof.
  intros Hseed Hcs Hlen Hnd Hchunks Hn.
  destruct (proj2 (parses_load_map_noise seed chunk_size chunks
                     Hseed Hcs Hlen Hnd Hchunks) n [] Hn) as (e & f' & H).
  exists e. unfold load, open_rb. rewrite H. reflexivity.
Qed.
End ReadNoise.


(** The same file without the last byte of its last sample. *)
Lemma load_map_raises_on_truncated_grids_witness :
  exists e,
    load LittleEndian [0; 1; 2]
         (firstn 75
            (file_bytes LittleEndian
               (read_noise_file 7 2
                  [(Point.new 0 0, [[1; 2]; [3; 4]]);
                   (Point.new (-1) 5, [[5; 6]; [7; 8]])])))
    = Raise e.
Proof.
  apply (load_map_raises_on_truncated_grids LittleEndian [0; 1; 2] 7 2
           [(Point.new 0 0, [[1; 2]; [3; 4]]);
            (Point.new (-1) 5, [[5; 6]; [7; 8]])] 75);
    try reflexivity.
  - repeat constructor; cbn [List.map fst In]; intros H;
      repeat (destruct H as [H|H]; try discriminate H); exact H.
  - repeat constructor; cbn; try lia; try discriminate.
  - vm_compute. lia.
Defined.
